(** * AIRAC cycle calculator: a shallow embedding of [main.py]

    The program computes, for a calendar date, the 28-day AIRAC cycle in force
    on that date, and converts a YYCC identifier back to its cycle.  It is
    written against Python's [datetime.date]; the first part of this file is a
    model of that type (proleptic Gregorian calendar, years 1..9999), the
    second part embeds [AIRACCalculator], the third part proves its
    properties. *)

From Stdlib Require Import ZArith List Bool Lia String Ascii.
Import ListNotations.
Open Scope Z_scope.

(** ** Python strings and exceptions *)

(** A Python [str] is a sequence of Unicode code points. *)
Definition codepoint := Z.
Definition str := list codepoint.

(** An ASCII string literal of the source, as a [str]. *)
Definition pystr (s : string) : str :=
  map (fun a => Z.of_N (N_of_ascii a)) (list_ascii_of_string s).

(** The two exception classes that can leave the calculator, each with its
    message.  The messages of the calculator itself are those of the source;
    the messages of [datetime] and [int] are kept short, without the values
    CPython formats into them. *)
Inductive exn : Type :=
| ValueError (msg : str)
| OverflowError (msg : str).

Inductive exn_class : Type := ValueErrorClass | OverflowErrorClass.

Definition class_of (e : exn) : exn_class :=
  match e with
  | ValueError _ => ValueErrorClass
  | OverflowError _ => OverflowErrorClass
  end.

(** A computation either returns or raises. *)
Inductive result (A : Type) : Type :=
| Ok (a : A)
| Raise (e : exn).
Arguments Ok {A} a.
Arguments Raise {A} e.

Definition bind {A B : Type} (m : result A) (k : A -> result B) : result B :=
  match m with
  | Ok a => k a
  | Raise e => Raise e
  end.

Notation "x <- m ;; k" := (bind m (fun x => k))
  (at level 61, m at next level, right associativity).

(** ** The calendar of [datetime.date]

    These definitions follow CPython's [datetime] module (the pure-Python
    [_pydatetime.py], whose arithmetic the C implementation shares). *)

Module Calendar.

Definition MINYEAR : Z := 1.
Definition MAXYEAR : Z := 9999.
Definition MAXORDINAL : Z := 3652059.

Definition DAYS_IN_MONTH : list Z :=
  [-1; 31; 28; 31; 30; 31; 30; 31; 31; 30; 31; 30; 31].

Definition DAYS_BEFORE_MONTH : list Z :=
  [-1; 0; 31; 59; 90; 120; 151; 181; 212; 243; 273; 304; 334].

(** [table[i]] for a table indexed by a month number. *)
Definition index (table : list Z) (i : Z) : Z := nth (Z.to_nat i) table 0.

Definition is_leap (year : Z) : bool :=
  (year mod 4 =? 0) && (negb (year mod 100 =? 0) || (year mod 400 =? 0)).

Definition b2z (b : bool) : Z := if b then 1 else 0.

Definition days_before_year (year : Z) : Z :=
  let y := year - 1 in
  y * 365 + y / 4 - y / 100 + y / 400.

Definition days_in_month (year month : Z) : Z :=
  if (month =? 2) && is_leap year then 29 else index DAYS_IN_MONTH month.

Definition days_before_month (year month : Z) : Z :=
  index DAYS_BEFORE_MONTH month + b2z ((month >? 2) && is_leap year).

Definition ymd2ord (year month day : Z) : Z :=
  days_before_year year + days_before_month year month + day.

Definition DI400Y : Z := 146097.
Definition DI100Y : Z := 36524.
Definition DI4Y : Z := 1461.

(** Month and day of the [n]-th day (from 0) of a year. *)
Definition month_day (leapyear : bool) (n : Z) : Z * Z :=
  let month := Z.shiftr (n + 50) 5 in
  let preceding := index DAYS_BEFORE_MONTH month + b2z ((month >? 2) && leapyear) in
  if preceding >? n then
    let month := month - 1 in
    let preceding :=
      preceding - (index DAYS_IN_MONTH month + b2z ((month =? 2) && leapyear)) in
    (month, n - preceding + 1)
  else (month, n - preceding + 1).

Definition ord2ymd (n : Z) : Z * Z * Z :=
  let n := n - 1 in
  let n400 := n / DI400Y in
  let n := n mod DI400Y in
  let year := n400 * 400 + 1 in
  let n100 := n / DI100Y in
  let n := n mod DI100Y in
  let n4 := n / DI4Y in
  let n := n mod DI4Y in
  let n1 := n / 365 in
  let n := n mod 365 in
  let year := year + n100 * 100 + n4 * 4 + n1 in
  if (n1 =? 4) || (n100 =? 4) then (year - 1, 12, 31)
  else
    let leapyear := (n1 =? 3) && (negb (n4 =? 24) || (n100 =? 3)) in
    let '(month, day) := month_day leapyear n in
    (year, month, day).

(** A [date] object holds a year, a month and a day. *)
Record date : Type := mkdate { year : Z; month : Z; day : Z }.

(** The invariant of every [date] object: what the constructor checks. *)
Definition valid_date (d : date) : bool :=
  (MINYEAR <=? year d) && (year d <=? MAXYEAR) &&
  (1 <=? month d) && (month d <=? 12) &&
  (1 <=? day d) && (day d <=? days_in_month (year d) (month d)).

(** [date(year, month, day)]. *)
Definition date_new (y m d : Z) : result date :=
  if negb ((MINYEAR <=? y) && (y <=? MAXYEAR)) then
    Raise (ValueError (pystr "year is out of range"))
  else if negb ((1 <=? m) && (m <=? 12)) then
    Raise (ValueError (pystr "month must be in 1..12"))
  else if negb ((1 <=? d) && (d <=? days_in_month y m)) then
    Raise (ValueError (pystr "day is out of range for month"))
  else Ok (mkdate y m d).

Definition toordinal (d : date) : Z := ymd2ord (year d) (month d) (day d).

Definition fromordinal (n : Z) : result date :=
  let '(y, m, d) := ord2ymd n in date_new y m d.

(** [timedelta(days=n)]; a [timedelta] is represented by its [days]. *)
Definition timedelta (days : Z) : result Z :=
  if Z.abs days >? 999999999 then
    Raise (OverflowError (pystr "days must have magnitude <= 999999999"))
  else Ok days.

(** [d + delta] for a date and a timedelta. *)
Definition date_add (d : date) (delta : Z) : result date :=
  let o := toordinal d + delta in
  if (0 <? o) && (o <=? MAXORDINAL) then fromordinal o
  else Raise (OverflowError (pystr "date value out of range")).

(** [(d1 - d2).days] for two dates. *)
Definition date_diff_days (d1 d2 : date) : Z := toordinal d1 - toordinal d2.

(** [d1 < d2]: dates compare as (year, month, day) triples. *)
Definition date_ltb (d1 d2 : date) : bool :=
  (year d1 <? year d2) ||
  ((year d1 =? year d2) &&
   ((month d1 <? month d2) ||
    ((month d1 =? month d2) && (day d1 <? day d2)))).

(** [d1 <= d2], by the same comparison of triples. *)
Definition date_leb (d1 d2 : date) : bool := negb (date_ltb d2 d1).

End Calendar.

(** ** Unicode character data used by [str.isdigit] and [int]

    [str.isdigit] and [int] consult the Unicode character database, which is
    not part of the program.  It is taken as a parameter: [isdigit_char] is
    the per-character test of [str.isdigit], [todecimal] the decimal digit
    value [int] reads ([None] for a character that is not a decimal digit). *)

Record UnicodeData : Type := {
  isdigit_char : codepoint -> bool;
  todecimal : codepoint -> option Z
}.

(** What the calculator relies on, and what holds of the real database: the
    ASCII digits are decimal digits with their usual value, no other ASCII
    character is a digit, every decimal digit is a digit, and a digit value
    is between 0 and 9. *)
Definition unicode_sound (U : UnicodeData) : Prop :=
  (forall c, 48 <= c <= 57 -> todecimal U c = Some (c - 48)) /\
  (forall c, 0 <= c < 128 -> isdigit_char U c = ((48 <=? c) && (c <=? 57))) /\
  (forall c v, todecimal U c = Some v -> isdigit_char U c = true) /\
  (forall c v, todecimal U c = Some v -> 0 <= v <= 9).

(** The database restricted to Latin-1: besides the ASCII digits, the
    superscripts U+00B2, U+00B3 and U+00B9 are digits for [str.isdigit] but
    not decimal digits for [int]. *)
Definition latin1_data : UnicodeData := {|
  isdigit_char c :=
    ((48 <=? c) && (c <=? 57)) || (c =? 178) || (c =? 179) || (c =? 185);
  todecimal c := if (48 <=? c) && (c <=? 57) then Some (c - 48) else None
|}.

(** [s.isdigit()] *)
Definition isdigit (U : UnicodeData) (s : str) : bool :=
  match s with
  | [] => false
  | _ => forallb (isdigit_char U) s
  end.

Fixpoint int_digits (U : UnicodeData) (acc : Z) (s : str) : result Z :=
  match s with
  | [] => Ok acc
  | c :: s' =>
      match todecimal U c with
      | Some v => int_digits U (10 * acc + v) s'
      | None => Raise (ValueError (pystr "invalid literal for int() with base 10"))
      end
  end.

(** [int(s)] for a string [s] without sign, blanks or underscores (the
    strings that pass [isdigit] have none): the value of its decimal digits,
    [ValueError] when [s] is empty or has a character that is not one. *)
Definition int (U : UnicodeData) (s : str) : result Z :=
  match s with
  | [] => Raise (ValueError (pystr "invalid literal for int() with base 10"))
  | _ => int_digits U 0 s
  end.

(** Decimal digits of a non-negative integer, most significant first. *)
Fixpoint dec_digits (fuel : nat) (n : Z) (acc : str) : str :=
  match fuel with
  | O => acc
  | S fuel' =>
      let acc' := (48 + n mod 10) :: acc in
      if n <? 10 then acc' else dec_digits fuel' (n / 10) acc'
  end.

Definition dec_str (n : Z) : str := dec_digits (S (Z.to_nat (Z.log2 n))) n [].

(** [f"{n:02d}"]: decimal, zero-padded to width 2, the sign counting in the
    width. *)
Definition format_02d (n : Z) : str :=
  if n <? 0 then 45 :: dec_str (- n)
  else
    let s := dec_str n in
    if (List.length s <? 2)%nat then 48 :: s else s.

(** ** The calculator *)

Module AIRAC.

Import Calendar.

Record AIRACCycle : Type := mkAIRACCycle {
  identifier : str;
  year : Z;
  ordinal : Z;
  effective_date : date;
  expiration_date : date
}.

Definition EPOCH : date := mkdate 2020 1 2.

Definition CYCLE_DAYS : Z := 28.

(** [from_date(query_date)] for a given date: the body of the method after
    the default of its argument has been resolved. *)
Definition from_date (query_date : date) : result AIRACCycle :=
  let days_since_epoch := date_diff_days query_date EPOCH in
  let cycles_since_epoch := days_since_epoch / CYCLE_DAYS in
  td <- timedelta (cycles_since_epoch * CYCLE_DAYS) ;;
  effective_date <- date_add EPOCH td ;;
  td <- timedelta (CYCLE_DAYS - 1) ;;
  expiration_date <- date_add effective_date td ;;
  let year := Calendar.year effective_date in
  year_start <- date_new year 1 1 ;;
  let days_from_epoch_to_year_start := date_diff_days year_start EPOCH in
  let first_cycle_of_year_offset := days_from_epoch_to_year_start mod CYCLE_DAYS in
  first_cycle_start <-
    (if first_cycle_of_year_offset >? 0 then
       td <- timedelta (CYCLE_DAYS - first_cycle_of_year_offset) ;;
       date_add year_start td
     else Ok year_start) ;;
  yf <-
    (if date_ltb effective_date first_cycle_start then
       let year := Calendar.year effective_date - 1 in
       year_start <- date_new year 1 1 ;;
       let days_from_epoch_to_year_start := date_diff_days year_start EPOCH in
       let first_cycle_of_year_offset :=
         days_from_epoch_to_year_start mod CYCLE_DAYS in
       first_cycle_start <-
         (if first_cycle_of_year_offset >? 0 then
            td <- timedelta (CYCLE_DAYS - first_cycle_of_year_offset) ;;
            date_add year_start td
          else Ok year_start) ;;
       Ok (year, first_cycle_start)
     else Ok (year, first_cycle_start)) ;;
  let '(year, first_cycle_start) := yf in
  let ordinal := date_diff_days effective_date first_cycle_start / CYCLE_DAYS + 1 in
  let identifier := format_02d (year mod 100) ++ format_02d ordinal in
  Ok {| identifier := identifier;
        year := year;
        ordinal := ordinal;
        effective_date := effective_date;
        expiration_date := expiration_date |}.

(** [from_date()] with the argument omitted: the query date is
    [date.today()], here the clock reading [today]. *)
Definition from_date_default (today : date) : result AIRACCycle :=
  from_date today.

Definition from_identifier (U : UnicodeData) (identifier : str)
  : result AIRACCycle :=
  if negb (Nat.eqb (List.length identifier) 4) || negb (isdigit U identifier) then
    Raise (ValueError (pystr "Invalid AIRAC identifier: " ++ identifier))
  else
    year_part <- int U (firstn 2 identifier) ;;
    ordinal <- int U (skipn 2 identifier) ;;
    let year := if year_part >=? 64 then 1900 + year_part else 2000 + year_part in
    if (ordinal <? 1) || (ordinal >? 14) then
      Raise (ValueError (pystr "Invalid ordinal in AIRAC identifier: " ++ identifier))
    else
      prev_year_end <- date_new (year - 1) 12 31 ;;
      last_cycle_prev_year <- from_date prev_year_end ;;
      let cycles_to_add := ordinal in
      td <- timedelta (cycles_to_add * CYCLE_DAYS) ;;
      target_effective <- date_add (effective_date last_cycle_prev_year) td ;;
      result <- from_date target_effective ;;
      if negb (AIRAC.year result =? year) || negb (AIRAC.ordinal result =? ordinal)
      then Raise (ValueError (pystr "Invalid AIRAC identifier: " ++ identifier))
      else Ok result.

Definition current (today : date) : result AIRACCycle := from_date today.

(** [next(cycle)]; [None] is the omitted argument. *)
Definition next (today : date) (cycle : option AIRACCycle) : result AIRACCycle :=
  cycle <- match cycle with None => current today | Some c => Ok c end ;;
  td <- timedelta CYCLE_DAYS ;;
  next_date <- date_add (effective_date cycle) td ;;
  from_date next_date.

(** [previous(cycle)]; [None] is the omitted argument. *)
Definition previous (today : date) (cycle : option AIRACCycle)
  : result AIRACCycle :=
  cycle <- match cycle with None => current today | Some c => Ok c end ;;
  td <- timedelta 1 ;;
  prev_date <- date_add (effective_date cycle) (- td) ;;
  from_date prev_date.

End AIRAC.

(** ** The script run as [__main__]

    What the script prints, as the list of the strings given to [print], and
    the exception that stops it, if any.  The clock is read twice, by
    [calc.current()] and by [calc.next()]. *)

Module Script.

Import Calendar AIRAC.

(** [str(n)] for an integer, as an f-string formats [{n}]. *)
Definition str_of_int (n : Z) : str :=
  if n <? 0 then 45 :: dec_str (- n) else dec_str n.

(** [s.zfill(width)] for a string of digits. *)
Definition zfill (width : nat) (s : str) : str :=
  repeat 48 (width - List.length s) ++ s.

(** [str(d)] for a date, as an f-string formats [{d}]: [d.isoformat()],
    that is ["%04d-%02d-%02d" % (year, month, day)]. *)
Definition isoformat (d : date) : str :=
  zfill 4 (str_of_int (Calendar.year d)) ++ pystr "-" ++
  zfill 2 (str_of_int (month d)) ++ pystr "-" ++
  zfill 2 (str_of_int (day d)).

Definition test_dates : list date :=
  [mkdate 2020 1 2; mkdate 2020 1 30; mkdate 2020 12 31; mkdate 2025 11 25].

(** The line printed for one test date. *)
Definition test_line (test_date : date) (cycle : AIRACCycle) : str :=
  pystr "  " ++ isoformat test_date ++ pystr " -> " ++ identifier cycle ++
  pystr " (effective: " ++ isoformat (effective_date cycle) ++ pystr ")".

(** The loop over the test dates, from the output [out] so far. *)
Fixpoint test_loop (dates : list date) (out : list str) : list str * option exn :=
  match dates with
  | [] => (out, None)
  | test_date :: rest =>
      match from_date test_date with
      | Raise e => (out, Some e)
      | Ok cycle => test_loop rest (out ++ [test_line test_date cycle])
      end
  end.

Definition main (today1 today2 : date) : list str * option exn :=
  match current today1 with
  | Raise e => ([], Some e)
  | Ok current =>
      let out :=
        [pystr "Current AIRAC Cycle: " ++ identifier current;
         pystr "  Year: " ++ str_of_int (year current) ++ pystr ", Ordinal: " ++
           str_of_int (ordinal current);
         pystr "  Effective: " ++ isoformat (effective_date current);
         pystr "  Expires: " ++ isoformat (expiration_date current)] in
      match next today2 None with
      | Raise e => (out, Some e)
      | Ok next_cycle =>
          let out :=
            out ++
            [10 :: pystr "Next AIRAC Cycle: " ++ identifier next_cycle;
             pystr "  Effective: " ++ isoformat (effective_date next_cycle)] in
          let out := out ++ [10 :: pystr "Test cases:"] in
          test_loop test_dates out
      end
  end.

End Script.

(** ** Definitions used to state and prove the properties *)

Module Ordinals.

Import Calendar AIRAC.

(** The month tables, with the leap day made explicit. *)
Definition dim (leap : bool) (m : Z) : Z :=
  if (m =? 2) && leap then 29 else index DAYS_IN_MONTH m.

Definition dbm (leap : bool) (m : Z) : Z :=
  index DAYS_BEFORE_MONTH m + b2z ((m >? 2) && leap).

(** The date whose ordinal is [n]. *)
Definition date_of_ord (n : Z) : date :=
  let '(y, m, d) := ord2ymd n in mkdate y m d.

(** Ordinal of the epoch, 2020-01-02. *)
Definition E : Z := 737426.

(** A cycle boundary: an ordinal a multiple of 28 days from the epoch. *)
Definition is_boundary (o : Z) : Prop := (o - E) mod 28 = 0.

(** Ordinal of the start of the cycle that contains ordinal [o]. *)
Definition cycle_start (o : Z) : Z := E + (o - E) / 28 * 28.

(** Ordinal of the first cycle boundary on or after January 1st of [y], as
    [from_date] computes [first_cycle_start]. *)
Definition first_boundary (y : Z) : Z :=
  let s := days_before_year y + 1 in
  let off := (s - E) mod 28 in
  if off >? 0 then s + (28 - off) else s.

(** The cycle in force at ordinal [o], by arithmetic on ordinals. *)
Definition cycle_at (o : Z) : AIRACCycle :=
  let e := cycle_start o in
  let y := Calendar.year (date_of_ord e) in
  let k := (e - first_boundary y) / 28 + 1 in
  {| identifier := format_02d (y mod 100) ++ format_02d k;
     year := y;
     ordinal := k;
     effective_date := date_of_ord e;
     expiration_date := date_of_ord (e + 27) |}.

(** A cycle of the calculator: the cycle [from_date] returns for some date. *)
Definition produced (c : AIRACCycle) : Prop :=
  exists d, valid_date d = true /\ from_date d = Ok c.

(** The dates for which [from_date] returns a cycle: those whose cycle lies
    within [datetime.date], 0001-01-18 to 9999-12-29. *)
Definition FIRST_DATE : date := mkdate 1 1 18.
Definition LAST_DATE : date := mkdate 9999 12 29.
Definition FIRST_ORD : Z := 18.
Definition LAST_ORD : Z := 3652057.

Definition in_service (d : date) : bool :=
  date_leb FIRST_DATE d && date_leb d LAST_DATE.

(** The last date whose cycle has a next cycle, the first date whose cycle
    has a previous one. *)
Definition LAST_WITH_NEXT : date := mkdate 9999 12 1.
Definition FIRST_WITH_PREVIOUS : date := mkdate 1 2 15.

(** The error of [date] arithmetic that leaves [datetime.date]. *)
Definition out_of_range : exn :=
  OverflowError (pystr "date value out of range").

(** The year [from_identifier] resolves a two-digit year to. *)
Definition century (year_part : Z) : Z :=
  if year_part >=? 64 then 1900 + year_part else 2000 + year_part.

(** The two errors [from_identifier] raises itself. *)
Definition invalid_identifier (s : str) : exn :=
  ValueError (pystr "Invalid AIRAC identifier: " ++ s).

Definition invalid_ordinal (s : str) : exn :=
  ValueError (pystr "Invalid ordinal in AIRAC identifier: " ++ s).

End Ordinals.

(** ** Facts about the calendar *)

Module CalendarFacts.

Import Calendar Ordinals.

Lemma Z_range_forallb (P : Z -> bool) (lo : Z) (len : nat) :
  forallb P (map (fun k => lo + Z.of_nat k) (seq 0 len)) = true ->
  forall z, lo <= z < lo + Z.of_nat len -> P z = true.
Proof.
  intros H z Hz.
  rewrite forallb_forall in H.
  apply H. apply in_map_iff.
  exists (Z.to_nat (z - lo)). split; [lia|].
  apply in_seq. lia.
Qed.

Lemma between_true lo x hi : lo <= x <= hi -> (lo <=? x) && (x <=? hi) = true.
Proof. intros H. apply andb_true_iff. rewrite !Z.leb_le. exact H. Qed.

Lemma between_false lo x hi :
  x < lo \/ hi < x -> (lo <=? x) && (x <=? hi) = false.
Proof. intros H. apply andb_false_iff. rewrite !Z.leb_gt. tauto. Qed.

Lemma outside_false lo x hi : lo <= x <= hi -> (x <? lo) || (x >? hi) = false.
Proof.
  intros H. apply orb_false_iff. rewrite Z.gtb_ltb, !Z.ltb_ge. lia.
Qed.

Lemma outside_true lo x hi : x < lo \/ hi < x -> (x <? lo) || (x >? hi) = true.
Proof.
  intros H. apply orb_true_iff. rewrite Z.gtb_ltb, !Z.ltb_lt. lia.
Qed.

Lemma days_before_year_succ y :
  days_before_year (y + 1) = days_before_year y + 365 + b2z (is_leap y).
Proof.
  unfold days_before_year, is_leap, b2z.
  replace (y + 1 - 1) with y by lia.
  destruct (y mod 4 =? 0) eqn:E4; destruct (y mod 100 =? 0) eqn:E100;
    destruct (y mod 400 =? 0) eqn:E400; cbn [andb orb negb];
    rewrite ?Z.eqb_eq, ?Z.eqb_neq in *;
    Z.div_mod_to_equations; lia.
Qed.

Lemma days_before_year_le y1 y2 :
  y1 <= y2 -> days_before_year y1 <= days_before_year y2.
Proof.
  intros H. unfold days_before_year. Z.div_mod_to_equations. lia.
Qed.

Lemma days_before_year_lt y1 y2 :
  y1 < y2 -> days_before_year y1 + 365 <= days_before_year y2.
Proof.
  intros H.
  pose proof (days_before_year_le (y1 + 1) y2 ltac:(lia)) as Hle.
  rewrite days_before_year_succ in Hle.
  unfold b2z in Hle. destruct (is_leap y1); lia.
Qed.


Lemma dim_pos leap m : 1 <= m <= 12 -> 28 <= dim leap m <= 31.
Proof.
  intros Hm.
  assert (H : ((28 <=? dim leap m) && (dim leap m <=? 31)) = true).
  { apply (Z_range_forallb
             (fun m => (28 <=? dim leap m) && (dim leap m <=? 31)) 1 12);
      [destruct leap; vm_compute; reflexivity | lia]. }
  lia.
Qed.

Lemma dbm_succ leap m :
  1 <= m <= 12 ->
  dbm leap m + dim leap m =
  if m =? 12 then 365 + b2z leap else dbm leap (m + 1).
Proof.
  intros Hm.
  assert (H : (dbm leap m + dim leap m =?
               if m =? 12 then 365 + b2z leap else dbm leap (m + 1)) = true).
  { apply (Z_range_forallb
             (fun m => dbm leap m + dim leap m =?
                       if m =? 12 then 365 + b2z leap else dbm leap (m + 1))
             1 12);
      [destruct leap; vm_compute; reflexivity | lia]. }
  lia.
Qed.

Lemma dbm_bounds leap m d :
  1 <= m <= 12 -> 1 <= d <= dim leap m ->
  1 <= dbm leap m + d <= 365 + b2z leap.
Proof.
  intros Hm Hd.
  assert (H : ((0 <=? dbm leap m) &&
               (dbm leap m + dim leap m <=? 365 + b2z leap)) = true).
  { apply (Z_range_forallb
             (fun m => (0 <=? dbm leap m) &&
                       (dbm leap m + dim leap m <=? 365 + b2z leap)) 1 12);
      [destruct leap; vm_compute; reflexivity | lia]. }
  lia.
Qed.

Lemma dbm_lt leap m1 m2 :
  1 <= m1 -> m1 < m2 -> m2 <= 12 ->
  dbm leap m1 + dim leap m1 <= dbm leap m2.
Proof.
  intros H1 H12 H2.
  assert (H : forallb (fun m2 => dbm leap m1 + dim leap m1 <=? dbm leap m2)
                (map (fun k => (m1 + 1) + Z.of_nat k)
                   (seq 0 (Z.to_nat (12 - m1)))) = true).
  { assert (Hm : forallb (fun m1 =>
              forallb (fun m2 => dbm leap m1 + dim leap m1 <=? dbm leap m2)
                (map (fun k => (m1 + 1) + Z.of_nat k)
                   (seq 0 (Z.to_nat (12 - m1))))) (map (fun k => 1 + Z.of_nat k) (seq 0 12)) = true)
      by (destruct leap; vm_compute; reflexivity).
    apply (Z_range_forallb _ 1 12 Hm). lia. }
  pose proof (Z_range_forallb _ _ _ H m2 ltac:(lia)) as H'. cbv beta in H'. lia.
Qed.

Lemma month_day_spec leap n :
  0 <= n < 365 + b2z leap ->
  let '(m, d) := month_day leap n in
  1 <= m <= 12 /\ 1 <= d <= dim leap m /\ dbm leap m + d = n + 1.
Proof.
  intros Hn.
  assert (H : (let '(m, d) := month_day leap n in
               (1 <=? m) && (m <=? 12) && (1 <=? d) && (d <=? dim leap m) &&
               (dbm leap m + d =? n + 1)) = true).
  { apply (Z_range_forallb
             (fun n => let '(m, d) := month_day leap n in
               (1 <=? m) && (m <=? 12) && (1 <=? d) && (d <=? dim leap m) &&
               (dbm leap m + d =? n + 1)) 0 (if leap then 366 else 365));
      [destruct leap; vm_compute; reflexivity | destruct leap; cbn [b2z] in *; lia]. }
  destruct (month_day leap n) as [m d]. lia.
Qed.

Lemma ord2ymd_eq n :
  1 <= n ->
  exists y idx,
    1 <= y /\ n = days_before_year y + idx + 1 /\
    0 <= idx < 365 + b2z (is_leap y) /\
    ord2ymd n =
    (y, fst (month_day (is_leap y) idx), snd (month_day (is_leap y) idx)).
Proof.
  intros Hn. unfold ord2ymd. cbv zeta. unfold DI400Y, DI100Y, DI4Y.
  set (n0 := n - 1).
  set (n400 := n0 / 146097). set (r1 := n0 mod 146097).
  set (n100 := r1 / 36524). set (r2 := r1 mod 36524).
  set (n4 := r2 / 1461). set (r3 := r2 mod 1461).
  set (n1 := r3 / 365). set (r4 := r3 mod 365).
  assert (H0 : 0 <= n0) by (subst n0; lia).
  assert (E1 : n0 = 146097 * n400 + r1 /\ 0 <= r1 < 146097 /\ 0 <= n400).
  { subst n400 r1. Z.div_mod_to_equations. lia. }
  assert (E2 : r1 = 36524 * n100 + r2 /\ 0 <= r2 < 36524 /\ 0 <= n100 <= 4).
  { subst n100 r2. Z.div_mod_to_equations. lia. }
  assert (E3 : r2 = 1461 * n4 + r3 /\ 0 <= r3 < 1461 /\ 0 <= n4 <= 24).
  { subst n4 r3. Z.div_mod_to_equations. lia. }
  assert (E4 : r3 = 365 * n1 + r4 /\ 0 <= r4 < 365 /\ 0 <= n1 <= 4).
  { subst n1 r4. Z.div_mod_to_equations. lia. }
  clearbody n400 r1 n100 r2 n4 r3 n1 r4.
  destruct ((n1 =? 4) || (n100 =? 4)) eqn:Hend.
  - (* the last day of a leap year *)
    exists (n400 * 400 + 1 + n100 * 100 + n4 * 4 + n1 - 1), 365.
    assert (Hleap : is_leap (n400 * 400 + 1 + n100 * 100 + n4 * 4 + n1 - 1) = true).
    { unfold is_leap.
      apply orb_true_iff in Hend. rewrite !Z.eqb_eq in Hend.
      rewrite andb_true_iff, orb_true_iff, negb_true_iff, Z.eqb_eq, Z.eqb_eq, Z.eqb_neq.
      Z.div_mod_to_equations. lia. }
    rewrite Hleap. cbn [b2z].
    apply orb_true_iff in Hend. rewrite !Z.eqb_eq in Hend.
    repeat split; try lia.
    unfold days_before_year. Z.div_mod_to_equations. lia.
  - apply orb_false_iff in Hend. rewrite !Z.eqb_neq in Hend.
    set (leapyear := (n1 =? 3) && (negb (n4 =? 24) || (n100 =? 3))).
    assert (Hleap : is_leap (n400 * 400 + 1 + n100 * 100 + n4 * 4 + n1) = leapyear).
    { subst leapyear. unfold is_leap.
      destruct (n1 =? 3) eqn:A1; destruct (n4 =? 24) eqn:A4;
        destruct (n100 =? 3) eqn:A100; cbn [andb orb negb];
        rewrite ?Z.eqb_eq, ?Z.eqb_neq in *;
        rewrite ?andb_true_iff, ?andb_false_iff, ?orb_true_iff, ?orb_false_iff,
          ?negb_true_iff, ?negb_false_iff, ?Z.eqb_eq, ?Z.eqb_neq;
        Z.div_mod_to_equations; lia. }
    exists (n400 * 400 + 1 + n100 * 100 + n4 * 4 + n1), r4.
    rewrite Hleap.
    destruct (month_day leapyear r4) as [m d]. cbn [fst snd].
    repeat split; try lia.
    + unfold days_before_year. Z.div_mod_to_equations. lia.
    + unfold b2z. destruct leapyear; lia.
Qed.


Lemma valid_date_iff d :
  valid_date d = true <->
  1 <= year d <= 9999 /\ 1 <= month d <= 12 /\
  1 <= day d <= dim (is_leap (year d)) (month d).
Proof.
  unfold valid_date, MINYEAR, MAXYEAR.
  change (days_in_month (year d) (month d)) with (dim (is_leap (year d)) (month d)).
  rewrite !andb_true_iff, !Z.leb_le. tauto.
Qed.

Lemma days_before_year_1 : days_before_year 1 = 0.
Proof. reflexivity. Qed.

Lemma days_before_year_10000 : days_before_year 10000 = MAXORDINAL.
Proof. reflexivity. Qed.

Lemma toordinal_year_bounds d :
  valid_date d = true ->
  days_before_year (year d) < toordinal d <= days_before_year (year d + 1).
Proof.
  intros Hv. apply valid_date_iff in Hv. destruct Hv as (Hy & Hm & Hd).
  unfold toordinal, ymd2ord.
  change (days_before_month (year d) (month d))
    with (dbm (is_leap (year d)) (month d)).
  rewrite days_before_year_succ.
  pose proof (dbm_bounds _ _ _ Hm Hd). lia.
Qed.

Lemma toordinal_range d :
  valid_date d = true -> 1 <= toordinal d <= MAXORDINAL.
Proof.
  intros Hv. pose proof (toordinal_year_bounds d Hv) as Hb.
  apply valid_date_iff in Hv. destruct Hv as (Hy & _).
  pose proof (days_before_year_le 1 (year d) ltac:(lia)).
  pose proof (days_before_year_le (year d + 1) 10000 ltac:(lia)).
  rewrite days_before_year_1 in *. rewrite days_before_year_10000 in *. lia.
Qed.

Lemma date_of_ord_spec n :
  1 <= n <= MAXORDINAL ->
  valid_date (date_of_ord n) = true /\ toordinal (date_of_ord n) = n /\
  fromordinal n = Ok (date_of_ord n).
Proof.
  intros Hn.
  destruct (ord2ymd_eq n ltac:(lia)) as (y & idx & Hy & Hdec & Hidx & Heq).
  pose proof (month_day_spec (is_leap y) idx Hidx) as Hmd.
  unfold date_of_ord, fromordinal. rewrite Heq.
  destruct (month_day (is_leap y) idx) as [m d]. cbn [fst snd].
  destruct Hmd as (Hm & Hd & Hsum).
  assert (Hy' : y <= 9999).
  { destruct (Z_le_gt_dec y 9999) as [|Hgt]; [assumption|exfalso].
    pose proof (days_before_year_le 10000 y ltac:(lia)) as Hle.
    rewrite days_before_year_10000 in Hle. lia. }
  assert (Hv : valid_date (mkdate y m d) = true).
  { apply valid_date_iff. cbn [year month day]. lia. }
  repeat split.
  - exact Hv.
  - unfold toordinal, ymd2ord. cbn [year month day].
    change (days_before_month y m) with (dbm (is_leap y) m). lia.
  - unfold date_new, MINYEAR, MAXYEAR.
    change (days_in_month y m) with (dim (is_leap y) m).
    rewrite between_true by lia.
    rewrite between_true by lia.
    rewrite between_true by lia.
    reflexivity.
Qed.

Lemma toordinal_lt_lex a b :
  valid_date a = true -> valid_date b = true ->
  date_ltb a b = true -> toordinal a < toordinal b.
Proof.
  intros Ha Hb Hlt.
  pose proof (toordinal_year_bounds a Ha) as Ba.
  pose proof (toordinal_year_bounds b Hb) as Bb.
  apply valid_date_iff in Ha. apply valid_date_iff in Hb.
  destruct Ha as (Hya & Hma & Hda). destruct Hb as (Hyb & Hmb & Hdb).
  unfold date_ltb in Hlt.
  apply orb_true_iff in Hlt. destruct Hlt as [Hy|Hlt].
  - apply Z.ltb_lt in Hy.
    pose proof (days_before_year_le (year a + 1) (year b) ltac:(lia)). lia.
  - apply andb_true_iff in Hlt. destruct Hlt as [Hy Hlt].
    apply Z.eqb_eq in Hy.
    unfold toordinal, ymd2ord.
    change (days_before_month (year a) (month a))
      with (dbm (is_leap (year a)) (month a)).
    change (days_before_month (year b) (month b))
      with (dbm (is_leap (year b)) (month b)).
    rewrite Hy in *.
    apply orb_true_iff in Hlt. destruct Hlt as [Hm|Hlt].
    + apply Z.ltb_lt in Hm.
      pose proof (dbm_lt (is_leap (year b)) (month a) (month b)
                    ltac:(lia) Hm ltac:(lia)). lia.
    + apply andb_true_iff in Hlt. destruct Hlt as [Hm Hd].
      apply Z.eqb_eq in Hm. apply Z.ltb_lt in Hd. rewrite Hm. lia.
Qed.

Lemma date_lex_trichotomy a b :
  date_ltb a b = true \/ a = b \/ date_ltb b a = true.
Proof.
  destruct a as [ya ma da], b as [yb mb db]. unfold date_ltb. cbn [year month day].
  destruct (Z.lt_trichotomy ya yb) as [H|[H|H]].
  - left. apply orb_true_iff. left. lia.
  - subst yb. destruct (Z.lt_trichotomy ma mb) as [H|[H|H]].
    + left. rewrite Z.eqb_refl. apply orb_true_iff. right.
      apply orb_true_iff. left. lia.
    + subst mb. destruct (Z.lt_trichotomy da db) as [H|[H|H]].
      * left. rewrite !Z.eqb_refl. cbn [andb]. apply orb_true_iff. right.
        apply orb_true_iff. right. lia.
      * subst db. right. left. reflexivity.
      * right. right. rewrite !Z.eqb_refl. cbn [andb]. apply orb_true_iff. right.
        apply orb_true_iff. right. lia.
    + right. right. rewrite Z.eqb_refl. apply orb_true_iff. right.
      apply orb_true_iff. left. lia.
  - right. right. apply orb_true_iff. left. lia.
Qed.

Lemma date_ltb_ord a b :
  valid_date a = true -> valid_date b = true ->
  date_ltb a b = (toordinal a <? toordinal b).
Proof.
  intros Ha Hb.
  destruct (date_lex_trichotomy a b) as [H|[H|H]].
  - rewrite H. symmetry. apply Z.ltb_lt. now apply toordinal_lt_lex.
  - subst b. rewrite Z.ltb_irrefl.
    destruct (date_ltb a a) eqn:E; [|reflexivity].
    pose proof (toordinal_lt_lex a a Ha Ha E). lia.
  - pose proof (toordinal_lt_lex b a Hb Ha H) as Hlt.
    rewrite (proj2 (Z.ltb_ge _ _)) by lia.
    destruct (date_ltb a b) eqn:E; [|reflexivity].
    pose proof (toordinal_lt_lex a b Ha Hb E). lia.
Qed.

Lemma toordinal_inj a b :
  valid_date a = true -> valid_date b = true ->
  toordinal a = toordinal b -> a = b.
Proof.
  intros Ha Hb Heq.
  destruct (date_lex_trichotomy a b) as [H|[H|H]].
  - pose proof (toordinal_lt_lex a b Ha Hb H). lia.
  - assumption.
  - pose proof (toordinal_lt_lex b a Hb Ha H). lia.
Qed.

Lemma date_of_ord_toordinal d :
  valid_date d = true -> date_of_ord (toordinal d) = d.
Proof.
  intros Hv. pose proof (toordinal_range d Hv) as Hr.
  destruct (date_of_ord_spec _ Hr) as (Hv' & Ho & _).
  now apply toordinal_inj.
Qed.

Lemma year_of_ord n y :
  1 <= n <= MAXORDINAL ->
  (year (date_of_ord n) = y <->
   days_before_year y < n <= days_before_year (y + 1)).
Proof.
  intros Hn. destruct (date_of_ord_spec n Hn) as (Hv & Ho & _).
  pose proof (toordinal_year_bounds _ Hv) as Hb. rewrite Ho in Hb.
  split.
  - intros <-. exact Hb.
  - intros Hy.
    destruct (Z.lt_trichotomy (year (date_of_ord n)) y) as [H|[H|H]]; [|assumption|].
    + pose proof (days_before_year_le (year (date_of_ord n) + 1) y ltac:(lia)). lia.
    + pose proof (days_before_year_le (y + 1) (year (date_of_ord n)) ltac:(lia)). lia.
Qed.

Lemma date_add_spec d k :
  valid_date d = true ->
  date_add d k =
  if (1 <=? toordinal d + k) && (toordinal d + k <=? MAXORDINAL)
  then Ok (date_of_ord (toordinal d + k))
  else Raise (OverflowError (pystr "date value out of range")).
Proof.
  intros Hv. unfold date_add. cbv zeta.
  replace (0 <? toordinal d + k) with (1 <=? toordinal d + k)
    by (destruct (Z.leb_spec 1 (toordinal d + k)); destruct (Z.ltb_spec 0 (toordinal d + k)); lia).
  destruct ((1 <=? toordinal d + k) && (toordinal d + k <=? MAXORDINAL)) eqn:E;
    [|reflexivity].
  apply andb_true_iff in E. rewrite !Z.leb_le in E.
  now destruct (date_of_ord_spec _ E) as (_ & _ & ->).
Qed.

Lemma date_new_jan1 y :
  1 <= y <= 9999 ->
  date_new y 1 1 = Ok (mkdate y 1 1) /\
  valid_date (mkdate y 1 1) = true /\
  toordinal (mkdate y 1 1) = days_before_year y + 1.
Proof.
  intros Hy. unfold date_new, MINYEAR, MAXYEAR.
  rewrite between_true by lia.
  split; [reflexivity|]. split.
  - apply valid_date_iff. cbn [year month day].
    pose proof (dim_pos (is_leap y) 1 ltac:(lia)). lia.
  - unfold toordinal, ymd2ord. cbn [year month day].
    change (days_before_month y 1) with 0. lia.
Qed.

Lemma date_new_dec31 y :
  1 <= y <= 9999 ->
  date_new y 12 31 = Ok (mkdate y 12 31) /\
  valid_date (mkdate y 12 31) = true /\
  toordinal (mkdate y 12 31) = days_before_year (y + 1).
Proof.
  intros Hy. unfold date_new, MINYEAR, MAXYEAR.
  rewrite between_true by lia.
  split; [reflexivity|]. split.
  - apply valid_date_iff. cbn [year month day].
    change (dim (is_leap y) 12) with 31. lia.
  - rewrite days_before_year_succ. unfold toordinal, ymd2ord. cbn [year month day].
    change (days_before_month y 12) with (334 + b2z (is_leap y)). lia.
Qed.
End CalendarFacts.

(** ** Facts about the calculator *)

Module AIRACFacts.

Import Calendar AIRAC Ordinals CalendarFacts.

(** *** Results and comparisons *)

Lemma bind_ok_inv {A B : Type} (m : result A) (k : A -> result B) (b : B) :
  bind m k = Ok b -> exists a, m = Ok a /\ k a = Ok b.
Proof. destruct m as [a|e]; [eauto|discriminate]. Qed.

(** Inversion of one step of a computation that returned. *)
Ltac bind_inv H x E :=
  apply bind_ok_inv in H; destruct H as (x & E & H).

Lemma Ok_inj {A : Type} (a b : A) : Ok a = Ok b -> a = b.
Proof. intros H. now injection H. Qed.

Lemma Raise_inj {A : Type} (e1 e2 : exn) : @Raise A e1 = Raise e2 -> e1 = e2.
Proof. intros H. now injection H. Qed.

Lemma timedelta_ok k : Z.abs k <= 999999999 -> timedelta k = Ok k.
Proof.
  intros H. unfold timedelta.
  destruct (Z.gtb_spec (Z.abs k) 999999999); [lia|reflexivity].
Qed.

Lemma date_new_ok y m dd d :
  date_new y m dd = Ok d -> valid_date d = true /\ d = mkdate y m dd.
Proof.
  unfold date_new, valid_date. intros H.
  destruct ((MINYEAR <=? y) && (y <=? MAXYEAR)) eqn:Ey; cbn [negb] in H; [|discriminate].
  destruct ((1 <=? m) && (m <=? 12)) eqn:Em; cbn [negb] in H; [|discriminate].
  destruct ((1 <=? dd) && (dd <=? days_in_month y m)) eqn:Ed; cbn [negb] in H; [|discriminate].
  injection H as <-. cbn [Calendar.year month day].
  apply andb_true_iff in Ey, Em, Ed. destruct Ey as [-> ->], Em as [-> ->], Ed as [-> ->].
  split; reflexivity.
Qed.

Lemma date_add_ok d k d' :
  valid_date d = true -> date_add d k = Ok d' ->
  valid_date d' = true /\ toordinal d' = toordinal d + k /\
  d' = date_of_ord (toordinal d + k).
Proof.
  intros Hv H. rewrite date_add_spec in H by assumption.
  destruct ((1 <=? toordinal d + k) && (toordinal d + k <=? MAXORDINAL)) eqn:E;
    [|discriminate].
  apply andb_true_iff in E. rewrite !Z.leb_le in E.
  destruct (date_of_ord_spec _ E) as (Hv' & Ho & _).
  injection H as <-. auto.
Qed.

Lemma date_add_in_range d k :
  valid_date d = true -> 1 <= toordinal d + k <= MAXORDINAL ->
  date_add d k = Ok (date_of_ord (toordinal d + k)).
Proof.
  intros Hv H. rewrite date_add_spec by assumption.
  rewrite between_true by lia. reflexivity.
Qed.

Lemma date_leb_ord a b :
  valid_date a = true -> valid_date b = true ->
  date_leb a b = (toordinal a <=? toordinal b).
Proof.
  intros Ha Hb. unfold date_leb. rewrite date_ltb_ord by assumption.
  destruct (Z.ltb_spec (toordinal b) (toordinal a));
    destruct (Z.leb_spec (toordinal a) (toordinal b)); cbn; lia.
Qed.

Lemma date_leb_ord_true a b :
  valid_date a = true -> valid_date b = true ->
  date_leb a b = true -> toordinal a <= toordinal b.
Proof.
  intros Ha Hb H. rewrite date_leb_ord in H by assumption. now apply Z.leb_le.
Qed.

Lemma in_service_ord d :
  valid_date d = true ->
  in_service d = (FIRST_ORD <=? toordinal d) && (toordinal d <=? LAST_ORD).
Proof.
  intros Hv. unfold in_service.
  rewrite !date_leb_ord by (assumption || reflexivity). reflexivity.
Qed.

Lemma toordinal_jan1 y : toordinal (mkdate y 1 1) = days_before_year y + 1.
Proof.
  unfold toordinal, ymd2ord. cbn [Calendar.year month day].
  change (days_before_month y 1) with 0. lia.
Qed.

(** *** Cycle starts, as ordinals *)

Lemma toordinal_EPOCH : toordinal EPOCH = E.
Proof. reflexivity. Qed.

Lemma cycle_start_bounds o :
  cycle_start o <= o < cycle_start o + 28 /\ (cycle_start o - E) mod 28 = 0.
Proof. unfold cycle_start, E. Z.div_mod_to_equations. lia. Qed.

Lemma cycle_start_unique o e :
  e <= o < e + 28 -> (e - E) mod 28 = 0 -> cycle_start o = e.
Proof. unfold cycle_start, E. intros. Z.div_mod_to_equations. lia. Qed.

Lemma cycle_start_range o :
  FIRST_ORD <= o <= LAST_ORD ->
  FIRST_ORD <= cycle_start o /\ cycle_start o + 27 <= LAST_ORD.
Proof.
  unfold FIRST_ORD, LAST_ORD. intros Ho.
  pose proof (cycle_start_bounds o) as [Hb Hm].
  unfold E in *. Z.div_mod_to_equations. lia.
Qed.

Lemma cycle_start_idem o : cycle_start (cycle_start o) = cycle_start o.
Proof.
  pose proof (cycle_start_bounds o) as [Hb Hm].
  apply cycle_start_unique; [lia|assumption].
Qed.

Lemma cycle_start_shift o k : cycle_start (o + 28 * k) = cycle_start o + 28 * k.
Proof. unfold cycle_start, E. Z.div_mod_to_equations. lia. Qed.

Lemma first_boundary_spec y :
  days_before_year y + 1 <= first_boundary y < days_before_year y + 29 /\
  (first_boundary y - E) mod 28 = 0.
Proof.
  unfold first_boundary, E. cbv zeta.
  destruct (Z.gtb_spec ((days_before_year y + 1 - 737426) mod 28) 0);
    Z.div_mod_to_equations; lia.
Qed.

Lemma first_boundary_least y e :
  days_before_year y + 1 <= e -> (e - E) mod 28 = 0 -> first_boundary y <= e.
Proof.
  intros He Hm. pose proof (first_boundary_spec y) as [Hb Hf].
  unfold E in *. Z.div_mod_to_equations. lia.
Qed.

Lemma first_boundary_after o y :
  o = days_before_year y -> cycle_start o + 28 = first_boundary y.
Proof.
  intros ->. pose proof (cycle_start_bounds (days_before_year y)) as [Hb Hm].
  pose proof (first_boundary_spec y) as [Hfb Hfm].
  unfold E in *. Z.div_mod_to_equations. lia.
Qed.

Lemma thirteen_cycles y k :
  1 <= k <= 13 ->
  first_boundary y + 28 * (k - 1) <= days_before_year (y + 1).
Proof.
  intros Hk. pose proof (first_boundary_spec y) as [Hfb _].
  rewrite days_before_year_succ.
  assert (Hl : 0 <= b2z (is_leap y)) by (unfold b2z; destruct (is_leap y); lia).
  lia.
Qed.

(** *** [from_date] *)

Lemma from_date_eq d :
  valid_date d = true ->
  from_date d =
  if (FIRST_ORD <=? toordinal d) && (toordinal d <=? LAST_ORD)
  then Ok (cycle_at (toordinal d))
  else Raise out_of_range.
Proof.
  intros Hv. pose proof (toordinal_range d Hv) as Hr. unfold MAXORDINAL in Hr.
  unfold from_date, FIRST_ORD, LAST_ORD, CYCLE_DAYS, date_diff_days.
  rewrite toordinal_EPOCH.
  set (o := toordinal d) in *.
  pose proof (cycle_start_bounds o) as [Hcs Hcm].
  fold (cycle_start o - E) in |- *.
  replace ((o - E) / 28 * 28) with (cycle_start o - E) by (unfold cycle_start; lia).
  set (e := cycle_start o) in *.
  rewrite timedelta_ok by (unfold E; lia). cbn [bind].
  rewrite date_add_spec by reflexivity. rewrite toordinal_EPOCH.
  replace (E + (e - E)) with e by lia. unfold MAXORDINAL.
  destruct (Z.leb_spec 18 o) as [Hlo|Hlo]; cbn [andb].
  2:{ replace (1 <=? e) with false; [reflexivity|].
      symmetry. apply Z.leb_gt. unfold E in *. Z.div_mod_to_equations. lia. }
  assert (He1 : 18 <= e) by (unfold E in *; Z.div_mod_to_equations; lia).
  rewrite between_true by lia.
  cbn [bind]. rewrite timedelta_ok by lia. cbn [bind].
  destruct (date_of_ord_spec e ltac:(unfold MAXORDINAL; lia)) as (Hve & Hoe & _).
  rewrite date_add_spec by exact Hve. rewrite Hoe. unfold MAXORDINAL.
  replace (28 - 1) with 27 by lia.
  destruct (Z.leb_spec o 3652057) as [Hhi|Hhi].
  2:{ replace ((1 <=? e + 27) && (e + 27 <=? 3652059)) with false; [reflexivity|].
      symmetry. apply andb_false_iff. right. apply Z.leb_gt.
      unfold E in *. Z.div_mod_to_equations. lia. }
  assert (He2 : e + 27 <= 3652057) by (unfold E in *; Z.div_mod_to_equations; lia).
  rewrite between_true by lia.
  cbn [bind].
  pose proof (toordinal_year_bounds _ Hve) as Hyb. rewrite Hoe in Hyb.
  assert (Hy : 1 <= Calendar.year (date_of_ord e) <= 9999).
  { apply valid_date_iff in Hve. tauto. }
  set (y := Calendar.year (date_of_ord e)) in *.
  destruct (date_new_jan1 y Hy) as (-> & Hvj & Hoj). cbn [bind].
  rewrite Hoj.
  pose proof (first_boundary_spec y) as [Hfb Hfm].
  pose proof (first_boundary_least y e ltac:(lia) Hcm) as Hfl.
  pose proof (days_before_year_le 1 y ltac:(lia)) as Hy0.
  rewrite days_before_year_1 in Hy0.
  assert (Hfcs :
    (if (days_before_year y + 1 - E) mod 28 >? 0
     then td <- timedelta (28 - (days_before_year y + 1 - E) mod 28) ;;
          date_add (mkdate y 1 1) td
     else Ok (mkdate y 1 1)) = Ok (date_of_ord (first_boundary y))).
  { assert (Hfe : first_boundary y =
                  if (days_before_year y + 1 - E) mod 28 >? 0
                  then days_before_year y + 1 + (28 - (days_before_year y + 1 - E) mod 28)
                  else days_before_year y + 1) by reflexivity.
    destruct (Z.gtb_spec ((days_before_year y + 1 - E) mod 28) 0) as [Hoff|Hoff].
    - rewrite timedelta_ok by (Z.div_mod_to_equations; lia). cbn [bind].
      rewrite date_add_spec by exact Hvj. rewrite Hoj, <- Hfe.
      unfold MAXORDINAL.
      rewrite between_true by lia.
      reflexivity.
    - rewrite Hfe, <- Hoj. now rewrite date_of_ord_toordinal. }
  rewrite Hfcs. cbn [bind].
  assert (Hfr : 1 <= first_boundary y <= MAXORDINAL) by (unfold MAXORDINAL; lia).
  destruct (date_of_ord_spec _ Hfr) as (Hvf & Hof & _).
  rewrite date_ltb_ord by assumption. rewrite Hoe, Hof.
  rewrite (proj2 (Z.ltb_ge _ _)) by lia.
  cbn [bind]. rewrite Hof. reflexivity.
Qed.

(** Inside its range, [from_date] returns [cycle_at]. *)
Lemma from_date_ok d c :
  valid_date d = true -> from_date d = Ok c ->
  FIRST_ORD <= toordinal d <= LAST_ORD /\ c = cycle_at (toordinal d).
Proof.
  intros Hv H. rewrite from_date_eq in H by assumption.
  destruct ((FIRST_ORD <=? toordinal d) && (toordinal d <=? LAST_ORD)) eqn:E;
    [|discriminate].
  apply andb_true_iff in E. rewrite !Z.leb_le in E. split; [lia|congruence].
Qed.

Lemma from_date_in_range d :
  valid_date d = true -> FIRST_ORD <= toordinal d <= LAST_ORD ->
  from_date d = Ok (cycle_at (toordinal d)).
Proof.
  intros Hv H. rewrite from_date_eq by assumption.
  rewrite between_true by lia. reflexivity.
Qed.

Lemma cycle_at_start o : cycle_at (cycle_start o) = cycle_at o.
Proof. unfold cycle_at. now rewrite cycle_start_idem. Qed.

Lemma cycle_at_same o1 o2 :
  cycle_start o1 = cycle_start o2 -> cycle_at o1 = cycle_at o2.
Proof. intros H. unfold cycle_at. now rewrite H. Qed.

(** The fields of a cycle returned for ordinal [o]. *)
Lemma cycle_at_facts o :
  FIRST_ORD <= o <= LAST_ORD ->
  let c := cycle_at o in
  let e := cycle_start o in
  valid_date (effective_date c) = true /\
  toordinal (effective_date c) = e /\
  valid_date (expiration_date c) = true /\
  toordinal (expiration_date c) = e + 27 /\
  year c = Calendar.year (effective_date c) /\
  1 <= year c <= 9999 /\
  first_boundary (year c) <= e <= days_before_year (year c + 1) /\
  e = first_boundary (year c) + 28 * (ordinal c - 1) /\
  1 <= ordinal c <= 14.
Proof.
  intros Ho. cbv zeta.
  pose proof (cycle_start_range o Ho) as [Hlo Hhi].
  pose proof (cycle_start_bounds o) as [Hb Hm].
  unfold FIRST_ORD, LAST_ORD in *.
  unfold cycle_at. cbn [effective_date expiration_date year ordinal].
  set (e := cycle_start o) in *.
  destruct (date_of_ord_spec e ltac:(unfold MAXORDINAL; lia)) as (Hve & Hoe & _).
  destruct (date_of_ord_spec (e + 27) ltac:(unfold MAXORDINAL; lia)) as (Hvx & Hox & _).
  pose proof (toordinal_year_bounds _ Hve) as Hyb. rewrite Hoe in Hyb.
  set (y := Calendar.year (date_of_ord e)) in *.
  assert (Hy : 1 <= y <= 9999) by (apply valid_date_iff in Hve; tauto).
  pose proof (first_boundary_spec y) as [Hfb Hfm].
  pose proof (first_boundary_least y e ltac:(lia) Hm) as Hfl.
  rewrite days_before_year_succ in Hyb.
  assert (Hl : 0 <= b2z (is_leap y) <= 1) by (unfold b2z; destruct (is_leap y); lia).
  repeat split; try assumption; try lia.
  - rewrite days_before_year_succ. lia.
  - unfold E in *. Z.div_mod_to_equations. lia.
  - unfold E in *. Z.div_mod_to_equations. lia.
  - unfold E in *. Z.div_mod_to_equations. lia.
Qed.

(** A year from 1 to 9998 has a cycle of ordinal [k] as soon as the [k]-th
    cycle start from its first boundary is still in the year; this is so for
    every [k] up to 13. *)
Lemma cycle_of_year_exists y k :
  1 <= y <= 9998 -> 1 <= k ->
  first_boundary y + 28 * (k - 1) <= days_before_year (y + 1) ->
  let o := first_boundary y + 28 * (k - 1) in
  FIRST_ORD <= o <= LAST_ORD /\
  year (cycle_at o) = y /\ ordinal (cycle_at o) = k.
Proof.
  intros Hy Hk Hin o.
  pose proof (first_boundary_spec y) as [Hfb Hfm].
  pose proof (days_before_year_le 1 y ltac:(lia)) as H1.
  rewrite days_before_year_1 in H1.
  pose proof (days_before_year_le (y + 1) 9999 ltac:(lia)) as H2.
  change (days_before_year 9999) with 3651694 in H2.
  assert (Hcs : cycle_start o = o).
  { apply cycle_start_unique; [lia|].
    subst o. unfold E in *. Z.div_mod_to_equations. lia. }
  assert (Ho : FIRST_ORD <= o <= LAST_ORD).
  { unfold FIRST_ORD, LAST_ORD. subst o. split; [|lia].
    unfold E in *. Z.div_mod_to_equations. lia. }
  split; [exact Ho|].
  assert (Hyo : year (cycle_at o) = y).
  { unfold cycle_at. cbn [year]. rewrite Hcs.
    apply year_of_ord; [unfold FIRST_ORD, LAST_ORD, MAXORDINAL in *; lia|].
    subst o. lia. }
  split; [exact Hyo|].
  destruct (cycle_at_facts o Ho) as (_ & _ & _ & _ & _ & _ & _ & He & _).
  rewrite Hcs, Hyo in He. subst o. lia.
Qed.

Lemma produced_from_date d c :
  valid_date d = true -> from_date d = Ok c -> produced c.
Proof. intros Hv H. exists d. split; assumption. Qed.

Lemma produced_cycle_at c :
  produced c ->
  exists o, FIRST_ORD <= o <= LAST_ORD /\ c = cycle_at o.
Proof.
  intros (d & Hv & H). destruct (from_date_ok d c Hv H) as [Hr ->]. eauto.
Qed.

Lemma produced_effective_valid c :
  produced c -> valid_date (effective_date c) = true.
Proof.
  intros Hp. destruct (produced_cycle_at c Hp) as (o & Ho & ->).
  now destruct (cycle_at_facts o Ho) as (Hve & _).
Qed.

Lemma produced_expiration c :
  produced c -> date_add (effective_date c) 27 = Ok (expiration_date c).
Proof.
  intros Hp. destruct (produced_cycle_at c Hp) as (o & Ho & ->).
  destruct (cycle_at_facts o Ho) as (Hve & Hoe & _).
  pose proof (cycle_start_range o Ho) as [Hlo Hhi].
  unfold FIRST_ORD, LAST_ORD in *.
  rewrite (date_add_in_range _ _ Hve) by (rewrite Hoe; unfold MAXORDINAL; lia).
  rewrite Hoe. reflexivity.
Qed.

(** *** [next] and [previous] *)

Lemma next_eq today c :
  next today (Some c) = (next_date <- date_add (effective_date c) 28 ;; from_date next_date).
Proof. reflexivity. Qed.

Lemma previous_eq today c :
  previous today (Some c) =
  (prev_date <- date_add (effective_date c) (- (1)) ;; from_date prev_date).
Proof. reflexivity. Qed.

Lemma next_cycle_at today o :
  FIRST_ORD <= o <= LAST_ORD ->
  next today (Some (cycle_at o)) =
  if o <=? 3652029 then Ok (cycle_at (cycle_start o + 28)) else Raise out_of_range.
Proof.
  intros Ho. rewrite next_eq.
  destruct (cycle_at_facts o Ho) as (Hve & Hoe & _).
  pose proof (cycle_start_range o Ho) as [Hlo Hhi].
  pose proof (cycle_start_bounds o) as [Hb Hm].
  unfold FIRST_ORD, LAST_ORD in *.
  rewrite (date_add_in_range _ _ Hve) by (rewrite Hoe; unfold MAXORDINAL; lia).
  cbn [bind]. rewrite Hoe.
  destruct (date_of_ord_spec (cycle_start o + 28) ltac:(unfold MAXORDINAL; lia))
    as (Hvn & Hon & _).
  rewrite from_date_eq by assumption. rewrite Hon. unfold FIRST_ORD, LAST_ORD.
  destruct (Z.leb_spec o 3652029).
  - rewrite between_true by lia. reflexivity.
  - replace ((18 <=? cycle_start o + 28) && (cycle_start o + 28 <=? 3652057)) with false;
      [reflexivity|].
    symmetry. apply andb_false_iff. right. apply Z.leb_gt.
    unfold E in *. Z.div_mod_to_equations. lia.
Qed.

Lemma previous_cycle_at today o :
  FIRST_ORD <= o <= LAST_ORD ->
  previous today (Some (cycle_at o)) =
  if 46 <=? o then Ok (cycle_at (cycle_start o - 1)) else Raise out_of_range.
Proof.
  intros Ho. rewrite previous_eq.
  destruct (cycle_at_facts o Ho) as (Hve & Hoe & _).
  pose proof (cycle_start_range o Ho) as [Hlo Hhi].
  pose proof (cycle_start_bounds o) as [Hb Hm].
  unfold FIRST_ORD, LAST_ORD in *.
  rewrite (date_add_in_range _ _ Hve) by (rewrite Hoe; unfold MAXORDINAL; lia).
  cbn [bind]. rewrite Hoe.
  replace (cycle_start o + - (1)) with (cycle_start o - 1) by lia.
  destruct (date_of_ord_spec (cycle_start o - 1) ltac:(unfold MAXORDINAL; lia))
    as (Hvn & Hon & _).
  rewrite from_date_eq by assumption. rewrite Hon. unfold FIRST_ORD, LAST_ORD.
  destruct (Z.leb_spec 46 o).
  - replace ((18 <=? cycle_start o - 1) && (cycle_start o - 1 <=? 3652057)) with true;
      [reflexivity|].
    symmetry. apply andb_true_iff. rewrite !Z.leb_le.
    unfold E in *. Z.div_mod_to_equations. lia.
  - replace ((18 <=? cycle_start o - 1) && (cycle_start o - 1 <=? 3652057)) with false;
      [reflexivity|].
    symmetry. apply andb_false_iff. left. apply Z.leb_gt.
    unfold E in *. Z.div_mod_to_equations. lia.
Qed.

Lemma next_produced today c0 c :
  (forall c', c0 = Some c' -> valid_date (effective_date c') = true) ->
  valid_date today = true ->
  next today c0 = Ok c -> produced c.
Proof.
  intros Hc0 Ht H. unfold next in H.
  bind_inv H cy Hcy.
  assert (Hvc : valid_date (effective_date cy) = true).
  { destruct c0 as [c'|].
    - injection Hcy as <-. now apply Hc0.
    - apply produced_effective_valid. now apply (produced_from_date today). }
  bind_inv H td Etd.
  bind_inv H nd Hnd.
  destruct (date_add_ok _ _ _ Hvc Hnd) as (Hvn & _).
  now apply (produced_from_date nd).
Qed.

Lemma previous_produced today c0 c :
  (forall c', c0 = Some c' -> valid_date (effective_date c') = true) ->
  valid_date today = true ->
  previous today c0 = Ok c -> produced c.
Proof.
  intros Hc0 Ht H. unfold previous in H.
  bind_inv H cy Hcy.
  assert (Hvc : valid_date (effective_date cy) = true).
  { destruct c0 as [c'|].
    - injection Hcy as <-. now apply Hc0.
    - apply produced_effective_valid. now apply (produced_from_date today). }
  bind_inv H td Etd.
  bind_inv H nd Hnd.
  destruct (date_add_ok _ _ _ Hvc Hnd) as (Hvn & _).
  now apply (produced_from_date nd).
Qed.

(** *** Identifiers *)

Lemma format_02d_two_digits n :
  0 <= n < 100 -> format_02d n = [48 + n / 10; 48 + n mod 10].
Proof.
  intros Hn.
  assert (H : (match format_02d n with
               | [a; b] => (a =? 48 + n / 10) && (b =? 48 + n mod 10)
               | _ => false
               end) = true).
  { apply (Z_range_forallb
             (fun n => match format_02d n with
                       | [a; b] => (a =? 48 + n / 10) && (b =? 48 + n mod 10)
                       | _ => false
                       end) 0 100); [vm_compute; reflexivity | lia]. }
  destruct (format_02d n) as [|a [|b [|? ?]]]; try discriminate.
  apply andb_true_iff in H. rewrite !Z.eqb_eq in H. destruct H as [-> ->]. reflexivity.
Qed.

Lemma identifier_cycle_at o :
  FIRST_ORD <= o <= LAST_ORD ->
  let c := cycle_at o in
  identifier c =
  [48 + (year c mod 100) / 10; 48 + (year c mod 100) mod 10;
   48 + ordinal c / 10; 48 + ordinal c mod 10].
Proof.
  intros Ho. cbv zeta.
  destruct (cycle_at_facts o Ho) as (_ & _ & _ & _ & _ & _ & _ & _ & Hk).
  change (identifier (cycle_at o))
    with (format_02d (year (cycle_at o) mod 100) ++ format_02d (ordinal (cycle_at o))).
  rewrite !format_02d_two_digits by (try lia; apply Z.mod_pos_bound; lia).
  reflexivity.
Qed.

Lemma identifier_congruent o1 o2 :
  FIRST_ORD <= o1 <= LAST_ORD -> FIRST_ORD <= o2 <= LAST_ORD ->
  (year (cycle_at o1) - year (cycle_at o2)) mod 100 = 0 ->
  ordinal (cycle_at o1) = ordinal (cycle_at o2) ->
  identifier (cycle_at o1) = identifier (cycle_at o2).
Proof.
  intros H1 H2 Hy Hk.
  rewrite !identifier_cycle_at by assumption. rewrite Hk.
  replace (year (cycle_at o1) mod 100) with (year (cycle_at o2) mod 100);
    [reflexivity|].
  Z.div_mod_to_equations. lia.
Qed.

(** The calendar and the cycles repeat together every 1600 years:
    1600 years are 584388 days, a multiple of 28. *)
Lemma identifier_digits_inj y1 k1 y2 k2 :
  0 <= k1 <= 99 -> 0 <= k2 <= 99 ->
  [48 + (y1 mod 100) / 10; 48 + (y1 mod 100) mod 10; 48 + k1 / 10; 48 + k1 mod 10] =
  [48 + (y2 mod 100) / 10; 48 + (y2 mod 100) mod 10; 48 + k2 / 10; 48 + k2 mod 10] ->
  k1 = k2 /\ (y1 - y2) mod 100 = 0.
Proof.
  intros Hk1 Hk2 Hid.
  pose proof (f_equal (fun l => nth 0 l 0) Hid) as Ha.
  pose proof (f_equal (fun l => nth 1 l 0) Hid) as Hb.
  pose proof (f_equal (fun l => nth 2 l 0) Hid) as Hc.
  pose proof (f_equal (fun l => nth 3 l 0) Hid) as Hd.
  cbn [nth] in Ha, Hb, Hc, Hd. clear Hid.
  split; Z.div_mod_to_equations; lia.
Qed.

Lemma days_before_year_shift y :
  days_before_year (y + 1600) = days_before_year y + 584388.
Proof. unfold days_before_year. Z.div_mod_to_equations. lia. Qed.

Lemma first_boundary_shift y :
  first_boundary (y + 1600) = first_boundary y + 584388.
Proof.
  unfold first_boundary. cbv zeta. rewrite days_before_year_shift.
  replace ((days_before_year y + 584388 + 1 - E) mod 28)
    with ((days_before_year y + 1 - E) mod 28)
    by (unfold E; Z.div_mod_to_equations; lia).
  destruct ((days_before_year y + 1 - E) mod 28 >? 0); lia.
Qed.

(** Every cycle has a namesake in another year: the cycle of the same
    ordinal 1600 years later, or earlier. *)
Lemma identifier_shared o :
  FIRST_ORD <= o <= LAST_ORD ->
  exists o',
    FIRST_ORD <= o' <= LAST_ORD /\
    year (cycle_at o') <> year (cycle_at o) /\
    (year (cycle_at o') - year (cycle_at o)) mod 100 = 0 /\
    ordinal (cycle_at o') = ordinal (cycle_at o) /\
    identifier (cycle_at o') = identifier (cycle_at o).
Proof.
  intros Ho.
  destruct (cycle_at_facts o Ho) as (_ & _ & _ & _ & _ & Hy & Hfe & He & Hk).
  set (y := year (cycle_at o)) in *. set (k := ordinal (cycle_at o)) in *.
  assert (Hex : exists y', y' <> y /\ 1 <= y' <= 9998 /\ (y' - y) mod 100 = 0 /\
                first_boundary y' + 28 * (k - 1) <= days_before_year (y' + 1)).
  { destruct (Z_le_gt_dec y 8398) as [Hlow|Hhigh].
    - exists (y + 1600). repeat split; try lia.
      + Z.div_mod_to_equations. lia.
      + rewrite first_boundary_shift.
        replace (y + 1600 + 1) with (y + 1 + 1600) by lia.
        rewrite days_before_year_shift. lia.
    - exists (y - 1600). repeat split; try lia.
      + Z.div_mod_to_equations. lia.
      + pose proof (first_boundary_shift (y - 1600)) as Hf.
        pose proof (days_before_year_shift (y - 1600 + 1)) as Hd.
        replace (y - 1600 + 1600) with y in Hf by lia.
        replace (y - 1600 + 1 + 1600) with (y + 1) in Hd by lia.
        lia. }
  destruct Hex as (y' & Hne & Hr & Hc & Hin).
  destruct (cycle_of_year_exists y' k Hr ltac:(lia) Hin) as (Ho' & Hy' & Hk').
  exists (first_boundary y' + 28 * (k - 1)).
  split; [exact Ho'|]. rewrite Hy', Hk'. fold y.
  repeat split; try assumption.
  apply identifier_congruent; try assumption.
  all: rewrite ?Hy', ?Hk'; solve [assumption | reflexivity].
Qed.

Lemma century_range yp : 0 <= yp <= 99 -> 1964 <= century yp <= 2063.
Proof. unfold century. intros H. destruct (Z.geb_spec yp 64); lia. Qed.

Lemma century_mod y : 1964 <= y <= 2063 -> century (y mod 100) = y.
Proof.
  unfold century. intros H.
  destruct (Z.geb_spec (y mod 100) 64); Z.div_mod_to_equations; lia.
Qed.

Lemma window_days y :
  1964 <= y <= 2063 -> 717000 <= days_before_year y + 30 /\ days_before_year y <= 754000.
Proof.
  intros H. unfold days_before_year. Z.div_mod_to_equations. lia.
Qed.

(** *** [from_identifier] *)

Lemma latin1_data_sound : unicode_sound latin1_data.
Proof.
  unfold unicode_sound, latin1_data. cbn [isdigit_char todecimal].
  repeat split.
  - intros c Hc. rewrite between_true by lia. reflexivity.
  - intros c Hc.
    replace (c =? 178) with false by (symmetry; apply Z.eqb_neq; lia).
    replace (c =? 179) with false by (symmetry; apply Z.eqb_neq; lia).
    replace (c =? 185) with false by (symmetry; apply Z.eqb_neq; lia).
    now rewrite !orb_false_r.
  - intros c v H. destruct ((48 <=? c) && (c <=? 57)); [reflexivity|discriminate].
  - destruct ((48 <=? c) && (c <=? 57)) eqn:Hc; [|discriminate].
    apply andb_true_iff in Hc. rewrite !Z.leb_le in Hc.
    injection H as <-. lia.
  - destruct ((48 <=? c) && (c <=? 57)) eqn:Hc; [|discriminate].
    apply andb_true_iff in Hc. rewrite !Z.leb_le in Hc.
    injection H as <-. lia.
Qed.

(** The lemmas on [from_identifier] are stated for any character data;
    those that read digits rely on its soundness. *)
Section FromIdentifier.

Variable U : UnicodeData.
Hypothesis U_sound : unicode_sound U.

Lemma int_two a b v :
  int U [a; b] = Ok v ->
  exists x y, todecimal U a = Some x /\ todecimal U b = Some y /\
              v = 10 * x + y /\ 0 <= x <= 9 /\ 0 <= y <= 9.
Proof.
  destruct U_sound as (_ & _ & _ & Hrange). intros H. cbn in H.
  destruct (todecimal U a) as [x|] eqn:Ea; [|discriminate].
  destruct (todecimal U b) as [y|] eqn:Eb; [|discriminate].
  injection H as <-. exists x, y.
  pose proof (Hrange _ _ Ea). pose proof (Hrange _ _ Eb).
  repeat split; try lia.
Qed.

Lemma int_firstn_range s v :
  List.length s = 4%nat ->
  int U (firstn 2 s) = Ok v -> 0 <= v <= 99.
Proof.
  intros Hlen H.
  destruct s as [|a [|b [|c [|d [|? ?]]]]]; try discriminate.
  cbn [firstn] in H.
  destruct (int_two a b v H) as (x & y & _ & _ & -> & Hx & Hy). lia.
Qed.

Lemma int_skipn_range s v :
  List.length s = 4%nat ->
  int U (skipn 2 s) = Ok v -> 0 <= v <= 99.
Proof.
  intros Hlen H.
  destruct s as [|a [|b [|c [|d [|? ?]]]]]; try discriminate.
  cbn [skipn] in H.
  destruct (int_two c d v H) as (x & y & _ & _ & -> & Hx & Hy). lia.
Qed.

Lemma int_digits_error s acc e :
  int_digits U acc s = Raise e -> class_of e = ValueErrorClass.
Proof.
  revert acc. induction s as [|ch s IH]; intros acc H; cbn [int_digits] in H.
  - discriminate.
  - destruct (todecimal U ch) as [v|].
    + exact (IH _ H).
    + injection H as <-. reflexivity.
Qed.

Lemma int_error s e : int U s = Raise e -> class_of e = ValueErrorClass.
Proof.
  destruct s as [|ch s]; intros H.
  - cbn in H. injection H as <-. reflexivity.
  - exact (int_digits_error (ch :: s) 0 e H).
Qed.

Lemma parse_generated yy k :
  0 <= yy <= 99 -> 0 <= k <= 99 ->
  let s := [48 + yy / 10; 48 + yy mod 10; 48 + k / 10; 48 + k mod 10] in
  List.length s = 4%nat /\ isdigit U s = true /\
  int U (firstn 2 s) = Ok yy /\ int U (skipn 2 s) = Ok k.
Proof.
  destruct U_sound as (Hdec & Hasc & _ & _). intros Hy Hk s.
  assert (Hd : forall n, 0 <= n <= 99 ->
             48 <= 48 + n / 10 <= 57 /\ 48 <= 48 + n mod 10 <= 57)
    by (intros; Z.div_mod_to_equations; lia).
  destruct (Hd yy Hy) as [Ha Hb]. destruct (Hd k Hk) as [Hc Hd'].
  assert (Hdig : forall c, 48 <= c <= 57 -> isdigit_char U c = true).
  { intros c Hc'. rewrite Hasc by lia. apply andb_true_iff. rewrite !Z.leb_le. lia. }
  split; [reflexivity|]. split.
  - subst s. cbn [isdigit forallb]. rewrite !Hdig by assumption. reflexivity.
  - subst s. cbn [firstn skipn int int_digits].
    repeat (rewrite Hdec by assumption; cbn [int_digits]).
    clear - Hy Hk. split; apply f_equal; Z.div_mod_to_equations; lia.
Qed.

Lemma from_identifier_format s :
  List.length s <> 4%nat \/ isdigit U s = false ->
  from_identifier U s = Raise (invalid_identifier s).
Proof.
  intros H. unfold from_identifier.
  replace (negb (Nat.eqb (List.length s) 4) || negb (isdigit U s)) with true;
    [reflexivity|].
  symmetry. apply orb_true_iff. destruct H as [H|H].
  - left. apply negb_true_iff. now apply Nat.eqb_neq.
  - right. now rewrite H.
Qed.

Lemma from_identifier_parsed s yp k :
  List.length s = 4%nat -> isdigit U s = true ->
  int U (firstn 2 s) = Ok yp -> int U (skipn 2 s) = Ok k ->
  0 <= yp <= 99 ->
  from_identifier U s =
  if (k <? 1) || (k >? 14) then Raise (invalid_ordinal s)
  else
    let c := cycle_at (first_boundary (century yp) + 28 * (k - 1)) in
    if negb (year c =? century yp) || negb (ordinal c =? k)
    then Raise (invalid_identifier s)
    else Ok c.
Proof.
  intros Hlen Hdig Hyp Hk Hr.
  unfold from_identifier. rewrite Hlen, Hdig. cbn [Nat.eqb negb orb].
  rewrite Hyp, Hk. cbn [bind]. fold (century yp).
  destruct ((k <? 1) || (k >? 14)) eqn:Eord; [reflexivity|].
  apply orb_false_iff in Eord. destruct Eord as [Ek1 Ek2].
  apply Z.ltb_ge in Ek1. assert (Ek : 1 <= k <= 14).
  { split; [assumption|]. destruct (Z.gtb_spec k 14); [discriminate|lia]. }
  pose proof (century_range yp Hr) as Hy. set (y := century yp) in *.
  destruct (date_new_dec31 (y - 1) ltac:(lia)) as (-> & Hvp & Hop). cbn [bind].
  replace (y - 1 + 1) with y in Hop by lia.
  pose proof (window_days y Hy) as Hw.
  assert (Hpr : FIRST_ORD <= toordinal (mkdate (y - 1) 12 31) <= LAST_ORD)
    by (unfold FIRST_ORD, LAST_ORD; lia).
  rewrite (from_date_in_range _ Hvp Hpr). cbn [bind]. unfold CYCLE_DAYS.
  rewrite timedelta_ok by lia. cbn [bind].
  rewrite Hop in Hpr |- *.
  destruct (cycle_at_facts _ Hpr) as (Hve & Hoe & _).
  pose proof (first_boundary_after _ y eq_refl) as Hfa.
  pose proof (first_boundary_spec y) as [Hfb _].
  rewrite (date_add_in_range _ _ Hve) by (rewrite Hoe; unfold MAXORDINAL; lia).
  cbn [bind]. rewrite Hoe.
  replace (cycle_start (days_before_year y) + k * 28)
    with (first_boundary y + 28 * (k - 1)) by lia.
  set (t := first_boundary y + 28 * (k - 1)).
  assert (Ht : FIRST_ORD <= t <= LAST_ORD) by (unfold FIRST_ORD, LAST_ORD, t; lia).
  destruct (date_of_ord_spec t ltac:(unfold FIRST_ORD, LAST_ORD, MAXORDINAL in *; lia))
    as (Hvt & Hot & _).
  rewrite (from_date_in_range _ Hvt) by (rewrite Hot; exact Ht).
  cbn [bind]. rewrite Hot. reflexivity.
Qed.

(** What a successful [from_identifier] went through. *)
Lemma from_identifier_inv s c :
  from_identifier U s = Ok c ->
  List.length s = 4%nat /\ isdigit U s = true /\
  exists yp k,
    int U (firstn 2 s) = Ok yp /\ int U (skipn 2 s) = Ok k /\
    1 <= k <= 14 /\ year c = century yp /\ ordinal c = k /\
    exists d, valid_date d = true /\ from_date d = Ok c.
Proof.
  unfold from_identifier. intros H.
  destruct (Nat.eqb (List.length s) 4) eqn:El; [|discriminate].
  destruct (isdigit U s) eqn:Ed; [|discriminate].
  apply Nat.eqb_eq in El. split; [assumption|]. split; [reflexivity|].
  bind_inv H yp Eyp.
  bind_inv H k Ek.
  exists yp, k. unfold century.
  set (y := if yp >=? 64 then 1900 + yp else 2000 + yp) in *.
  destruct ((k <? 1) || (k >? 14)) eqn:Eord; [discriminate|].
  apply orb_false_iff in Eord. destruct Eord as [Ek1 Ek2].
  apply Z.ltb_ge in Ek1.
  assert (Hk14 : k <= 14) by (destruct (Z.gtb_spec k 14); [discriminate|lia]).
  bind_inv H pye Ep.
  apply date_new_ok in Ep. destruct Ep as [Hvp _].
  bind_inv H lc Elc.
  destruct (from_date_ok _ _ Hvp Elc) as [Hpr ->].
  destruct (cycle_at_facts _ Hpr) as (Hve & _).
  bind_inv H td Etd.
  bind_inv H te Ete.
  destruct (date_add_ok _ _ _ Hve Ete) as (Hvt & _).
  bind_inv H r Er.
  destruct (negb (year r =? y) || negb (ordinal r =? k)) eqn:Echk;
    [discriminate|].
  injection H as <-.
  apply orb_false_iff in Echk. destruct Echk as [Ey Eo].
  apply negb_false_iff in Ey, Eo. apply Z.eqb_eq in Ey, Eo.
  repeat split; try assumption.
  exists te. split; assumption.
Qed.

Lemma from_identifier_produced s c :
  from_identifier U s = Ok c -> produced c.
Proof.
  intros H. apply from_identifier_inv in H.
  destruct H as (_ & _ & yp & k & _ & _ & _ & _ & _ & Hp). exact Hp.
Qed.

Lemma from_identifier_accepts s yp k d c :
  List.length s = 4%nat -> isdigit U s = true ->
  int U (firstn 2 s) = Ok yp -> int U (skipn 2 s) = Ok k ->
  valid_date d = true -> from_date d = Ok c ->
  year c = century yp -> ordinal c = k ->
  from_identifier U s = Ok c.
Proof.
  intros Hlen Hdig H1 H2 Hv Hd Hy Hk.
  destruct (from_date_ok d c Hv Hd) as [Ho ->].
  destruct (cycle_at_facts _ Ho) as (_ & _ & _ & _ & _ & _ & _ & He & Hr).
  rewrite (from_identifier_parsed s yp k Hlen Hdig H1 H2
             (int_firstn_range s yp Hlen H1)).
  rewrite Hk in He, Hr. rewrite Hy in He.
  rewrite outside_false by lia.
  cbv zeta. rewrite <- He, cycle_at_start, Hy, Hk, !Z.eqb_refl. reflexivity.
Qed.

Lemma round_trip_cycle_at o :
  FIRST_ORD <= o <= LAST_ORD ->
  1964 <= year (cycle_at o) <= 2063 ->
  from_identifier U (identifier (cycle_at o)) = Ok (cycle_at o).
Proof.
  intros Ho Hy.
  destruct (cycle_at_facts o Ho) as (_ & _ & _ & _ & _ & _ & _ & He & Hk).
  assert (Hyy : 0 <= year (cycle_at o) mod 100 <= 99)
    by (Z.div_mod_to_equations; lia).
  destruct (parse_generated _ (ordinal (cycle_at o)) Hyy ltac:(lia))
    as (Hlen & Hdig & Hp1 & Hp2).
  rewrite <- identifier_cycle_at in Hlen, Hdig, Hp1, Hp2 by assumption.
  rewrite (from_identifier_parsed _ _ _ Hlen Hdig Hp1 Hp2 Hyy).
  rewrite outside_false by lia.
  cbv zeta. rewrite century_mod by assumption. rewrite <- He.
  rewrite cycle_at_start. rewrite !Z.eqb_refl. reflexivity.
Qed.

End FromIdentifier.

(** Every operation returns a cycle of [from_date]. *)
Create HintDb produced.
#[export] Hint Resolve produced_from_date from_identifier_produced
  next_produced previous_produced : produced.

End AIRACFacts.

(** ** The properties of the calculator *)

Import Calendar AIRAC Ordinals CalendarFacts AIRACFacts.

(** C1 (as amended).  [from_date] returns a cycle for every date from
    0001-01-18 to 9999-12-29, and raises [OverflowError] for the other dates
    of [datetime.date] (0001-01-01 to 0001-01-17, 9999-12-30 and
    9999-12-31).  The cycle returned for [d] has effective date
    EPOCH + 28 * floor((d - EPOCH) / 28) days, and
    effective_date <= d <= expiration_date. *)
Theorem from_date_total_in_service (d : date) :
  valid_date d = true ->
  if in_service d then
    exists c,
      from_date d = Ok c /\
      date_add EPOCH (28 * (date_diff_days d EPOCH / 28)) = Ok (effective_date c) /\
      date_leb (effective_date c) d = true /\
      date_leb d (expiration_date c) = true
  else from_date d = Raise out_of_range.
Proof.
  intros Hv. rewrite in_service_ord by assumption.
  rewrite from_date_eq by assumption.
  destruct ((FIRST_ORD <=? toordinal d) && (toordinal d <=? LAST_ORD)) eqn:Hs;
    [|reflexivity].
  apply andb_true_iff in Hs. rewrite !Z.leb_le in Hs.
  exists (cycle_at (toordinal d)). split; [reflexivity|].
  destruct (cycle_at_facts _ Hs) as (Hve & Hoe & Hvx & Hox & _).
  pose proof (cycle_start_bounds (toordinal d)) as [Hb _].
  pose proof (cycle_start_range _ Hs) as [Hlo Hhi].
  unfold FIRST_ORD, LAST_ORD in *.
  split; [|split].
  - unfold date_diff_days. rewrite toordinal_EPOCH.
    rewrite date_add_in_range; rewrite ?toordinal_EPOCH.
    + f_equal. rewrite <- (date_of_ord_toordinal _ Hve), Hoe.
      f_equal. unfold cycle_start. lia.
    + reflexivity.
    + replace (E + 28 * ((toordinal d - E) / 28)) with (cycle_start (toordinal d))
        by (unfold cycle_start; lia).
      unfold MAXORDINAL. lia.
  - rewrite date_leb_ord by assumption. apply Z.leb_le. lia.
  - rewrite date_leb_ord by assumption. apply Z.leb_le. lia.
Qed.

Lemma from_date_total_in_service_witness :
  valid_date (mkdate 2025 11 25) = true /\
  exists c,
    from_date (mkdate 2025 11 25) = Ok c /\
    date_add EPOCH (28 * (date_diff_days (mkdate 2025 11 25) EPOCH / 28)) =
    Ok (effective_date c) /\
    date_leb (effective_date c) (mkdate 2025 11 25) = true /\
    date_leb (mkdate 2025 11 25) (expiration_date c) = true.
Proof.
  split; [reflexivity|].
  exact (from_date_total_in_service (mkdate 2025 11 25) eq_refl).
Defined.

(** C1, as stated, fails on the first date of [datetime.date]: the start of
    its cycle would fall before 0001-01-01. *)
Lemma from_date_not_total :
  valid_date (mkdate 1 1 1) = true /\
  ~ exists c, from_date (mkdate 1 1 1) = Ok c.
Proof.
  split; [reflexivity|].
  intros [c H]. vm_compute in H. discriminate.
Qed.

(** C2.  The year and ordinal of a returned cycle follow the year-boundary
    rule.  Let first_cycle_start be the first cycle boundary on or after
    date(year,1,1) of the cycle's year (a date a multiple of 28 days from the
    epoch, 0 to 27 days after January 1st).  The cycle's effective date is a
    cycle boundary of that calendar year, on or after first_cycle_start; its
    ordinal is ((effective_date - first_cycle_start) / 28) + 1, lies in
    [1,14], and is 1 exactly when the effective date is first_cycle_start.
    When [d] is a January 1st that is not a cycle boundary, its cycle belongs
    to the previous year and no cycle of that year has a larger ordinal. *)
Theorem year_boundary_rule (d : date) (c : AIRACCycle) :
  valid_date d = true -> from_date d = Ok c ->
  (exists first_cycle_start : date,
     valid_date first_cycle_start = true /\
     date_diff_days first_cycle_start EPOCH mod 28 = 0 /\
     0 <= date_diff_days first_cycle_start (mkdate (year c) 1 1) < 28 /\
     date_diff_days (effective_date c) EPOCH mod 28 = 0 /\
     Calendar.year (effective_date c) = year c /\
     date_leb first_cycle_start (effective_date c) = true /\
     ordinal c = date_diff_days (effective_date c) first_cycle_start / 28 + 1 /\
     (ordinal c = 1 <-> effective_date c = first_cycle_start)) /\
  1 <= ordinal c <= 14 /\
  (month d = 1 -> day d = 1 -> date_diff_days d EPOCH mod 28 <> 0 ->
   year c = Calendar.year d - 1 /\
   forall d' c', valid_date d' = true -> from_date d' = Ok c' ->
                 year c' = year c -> ordinal c' <= ordinal c).
Proof.
  intros Hv H.
  destruct (from_date_ok d c Hv H) as [Hr ->].
  destruct (cycle_at_facts _ Hr) as (Hve & Hoe & _ & _ & Hyy & Hy & Hfe & He & Hk).
  pose proof (cycle_start_bounds (toordinal d)) as [Hb Hm].
  pose proof (cycle_start_range _ Hr) as [Hlo Hhi].
  set (c := cycle_at (toordinal d)) in *.
  set (y := year c) in *. set (e := cycle_start (toordinal d)) in *.
  pose proof (first_boundary_spec y) as [Hfb Hfm].
  unfold FIRST_ORD, LAST_ORD in *.
  assert (Hfr : 1 <= first_boundary y <= MAXORDINAL)
    by (pose proof (days_before_year_le 1 y ltac:(lia)) as H1;
        rewrite days_before_year_1 in H1; unfold MAXORDINAL; lia).
  destruct (date_of_ord_spec _ Hfr) as (Hvf & Hof & _).
  split; [|split].
  - exists (date_of_ord (first_boundary y)).
    unfold date_diff_days. rewrite Hof, Hoe, toordinal_jan1, toordinal_EPOCH.
    split; [exact Hvf|]. split; [exact Hfm|]. split; [lia|].
    split; [exact Hm|]. split; [symmetry; exact Hyy|].
    split; [rewrite date_leb_ord by assumption; rewrite Hof, Hoe; apply Z.leb_le; lia|].
    split; [rewrite He; Z.div_mod_to_equations; lia|].
    split.
    + intros H1. change (effective_date c) with (date_of_ord e).
      f_equal. lia.
    + intros Heq. apply (f_equal toordinal) in Heq. rewrite Hoe, Hof in Heq. lia.
  - exact Hk.
  - intros Hmo Hda Hnb.
    assert (Hd : d = mkdate (Calendar.year d) 1 1)
      by (clear - Hmo Hda; destruct d as [yy mm dd];
          cbn [Calendar.year month day] in *; congruence).
    assert (Hod : toordinal d = days_before_year (Calendar.year d) + 1)
      by (rewrite Hd at 1; apply toordinal_jan1).
    assert (Hlt : e < toordinal d).
    { destruct (Z.eq_dec e (toordinal d)) as [Heq|]; [|lia].
      exfalso. apply Hnb. unfold date_diff_days.
      rewrite toordinal_EPOCH, <- Heq. exact Hm. }
    pose proof (days_before_year_succ (Calendar.year d - 1)) as Hs.
    replace (Calendar.year d - 1 + 1) with (Calendar.year d) in Hs by lia.
    assert (Hl : 0 <= b2z (is_leap (Calendar.year d - 1)))
      by (unfold b2z; destruct (is_leap (Calendar.year d - 1)); lia).
    assert (Hyc : y = Calendar.year d - 1).
    { subst y. rewrite Hyy.
      change (effective_date c) with (date_of_ord e).
      apply year_of_ord; [unfold MAXORDINAL; lia|].
      replace (Calendar.year d - 1 + 1) with (Calendar.year d) by lia. lia. }
    split; [exact Hyc|].
    clearbody y e. clear Hyy Hve Hoe.
    intros d' c' Hv' H' Hyc'.
    destruct (from_date_ok d' c' Hv' H') as [Hr' ->].
    destruct (cycle_at_facts _ Hr') as (_ & _ & _ & _ & _ & _ & Hfe' & He' & _).
    pose proof (cycle_start_bounds (toordinal d')) as [_ Hm'].
    rewrite Hyc' in Hfe', He'.
    replace (y + 1) with (Calendar.year d) in Hfe' by lia.
    unfold E in *. Z.div_mod_to_equations. lia.
Qed.

Lemma year_boundary_rule_witness :
  let c := {| identifier := pystr "2014"; year := 2020; ordinal := 14;
              effective_date := mkdate 2020 12 31;
              expiration_date := mkdate 2021 1 27 |} in
  from_date (mkdate 2021 1 1) = Ok c /\
  year c = Calendar.year (mkdate 2021 1 1) - 1 /\
  forall d' c', valid_date d' = true -> from_date d' = Ok c' ->
                year c' = year c -> ordinal c' <= ordinal c.
Proof.
  intros c.
  assert (H : from_date (mkdate 2021 1 1) = Ok c) by (vm_compute; reflexivity).
  split; [exact H|].
  refine (proj2 (proj2 (year_boundary_rule (mkdate 2021 1 1) c eq_refl H))
            eq_refl eq_refl _).
  vm_compute. discriminate.
Defined.

(** C3 (as amended).  For every date d whose cycle c belongs to a year in
    [1964, 2063], [from_identifier] of the identifier of c succeeds and
    returns a cycle with the effective date of c. *)
Theorem round_trip_effective_date (U : UnicodeData) (d : date) (c : AIRACCycle) :
  unicode_sound U -> valid_date d = true -> from_date d = Ok c ->
  1964 <= year c <= 2063 ->
  exists r,
    from_identifier U (identifier c) = Ok r /\
    effective_date r = effective_date c.
Proof.
  intros HU Hv H Hy. destruct (from_date_ok d c Hv H) as [Ho ->].
  exists (cycle_at (toordinal d)). split; [|reflexivity].
  now apply round_trip_cycle_at.
Qed.

Lemma round_trip_effective_date_witness :
  exists r,
    from_identifier latin1_data (pystr "2511") = Ok r /\
    effective_date r = mkdate 2025 10 30.
Proof.
  set (c := {| identifier := pystr "2511"; year := 2025; ordinal := 11;
               effective_date := mkdate 2025 10 30;
               expiration_date := mkdate 2025 11 26 |}).
  assert (H : from_date (mkdate 2025 11 25) = Ok c) by (vm_compute; reflexivity).
  apply (round_trip_effective_date latin1_data (mkdate 2025 11 25) c
           latin1_data_sound eq_refl H).
  cbn [year c]. lia.
Defined.

(** C3, as stated, fails outside the century window: the cycle of
    1950-06-01 starts on 1950-05-25 and is named "5006", which
    [from_identifier] resolves to the cycle of 2050 that starts on
    2050-06-09. *)
Lemma round_trip_fails_for_1950 :
  exists c r,
    from_date (mkdate 1950 6 1) = Ok c /\
    from_identifier latin1_data (identifier c) = Ok r /\
    effective_date c = mkdate 1950 5 25 /\
    effective_date r = mkdate 2050 6 9 /\
    effective_date r <> effective_date c.
Proof.
  do 2 eexists. split; [vm_compute; reflexivity|].
  split; [vm_compute; reflexivity|].
  split; [reflexivity|]. split; [reflexivity|]. discriminate.
Qed.

(** C4 (as amended).  [from_identifier] fails with one kind of error,
    [ValueError].  It raises it with the message "Invalid AIRAC identifier:
    <input>" when the length of the input is not 4 or [isdigit] is false.
    Otherwise the two numbers are read with [int], whose own [ValueError]
    passes through; then the message is "Invalid ordinal in AIRAC identifier:
    <input>" when the ordinal is outside [1,14]; otherwise the cycle of the
    resolved year with that ordinal is returned when there is one, and the
    message is "Invalid AIRAC identifier: <input>" again when there is none.
    "12a3" and "123" raise the first message, "2515" and "2500" the second.
    A failure returns no cycle. *)
Theorem from_identifier_errors (U : UnicodeData) (s : str) :
  unicode_sound U ->
  (List.length s <> 4%nat \/ isdigit U s = false ->
   from_identifier U s = Raise (invalid_identifier s)) /\
  (List.length s = 4%nat -> isdigit U s = true ->
   (forall e, int U (firstn 2 s) = Raise e -> from_identifier U s = Raise e) /\
   (forall year_part e,
      int U (firstn 2 s) = Ok year_part -> int U (skipn 2 s) = Raise e ->
      from_identifier U s = Raise e) /\
   (forall year_part k,
      int U (firstn 2 s) = Ok year_part -> int U (skipn 2 s) = Ok k ->
      (k < 1 \/ 14 < k -> from_identifier U s = Raise (invalid_ordinal s)) /\
      (1 <= k <= 14 ->
       (forall d c, valid_date d = true -> from_date d = Ok c ->
          year c = century year_part -> ordinal c = k ->
          from_identifier U s = Ok c) /\
       ((forall d c, valid_date d = true -> from_date d = Ok c ->
           ~ (year c = century year_part /\ ordinal c = k)) ->
        from_identifier U s = Raise (invalid_identifier s))))) /\
  (forall e, from_identifier U s = Raise e ->
     class_of e = ValueErrorClass /\ forall c, from_identifier U s <> Ok c) /\
  from_identifier U (pystr "12a3") = Raise (invalid_identifier (pystr "12a3")) /\
  from_identifier U (pystr "123") = Raise (invalid_identifier (pystr "123")) /\
  from_identifier U (pystr "2515") = Raise (invalid_ordinal (pystr "2515")) /\
  from_identifier U (pystr "2500") = Raise (invalid_ordinal (pystr "2500")).
Proof.
  intros HU.
  assert (Hparsed : forall s yp k,
    List.length s = 4%nat -> isdigit U s = true ->
    int U (firstn 2 s) = Ok yp -> int U (skipn 2 s) = Ok k ->
    from_identifier U s =
    if (k <? 1) || (k >? 14) then Raise (invalid_ordinal s)
    else
      let c := cycle_at (first_boundary (century yp) + 28 * (k - 1)) in
      if negb (year c =? century yp) || negb (ordinal c =? k)
      then Raise (invalid_identifier s)
      else Ok c).
  { intros s0 yp k Hlen Hdig H1 H2. apply from_identifier_parsed; try assumption.
    now apply (int_firstn_range U HU s0). }
  assert (Hdigits : forall a b a' b',
    48 <= a <= 57 -> 48 <= b <= 57 -> 48 <= a' <= 57 -> 48 <= b' <= 57 ->
    isdigit U [a; b; a'; b'] = true /\
    int U (firstn 2 [a; b; a'; b']) = Ok (10 * (a - 48) + (b - 48)) /\
    int U (skipn 2 [a; b; a'; b']) = Ok (10 * (a' - 48) + (b' - 48))).
  { destruct HU as (Hdec & Hasc & _ & _). intros a b a' b' Ha Hb Ha' Hb'.
    assert (Hd : forall ch, 48 <= ch <= 57 -> isdigit_char U ch = true).
    { intros ch Hch. rewrite Hasc by lia. apply andb_true_iff. rewrite !Z.leb_le. lia. }
    split.
    - cbn [isdigit forallb]. rewrite !Hd by assumption. reflexivity.
    - cbn [firstn skipn int int_digits].
      repeat (rewrite Hdec by assumption; cbn [int_digits]).
      split; apply f_equal; lia. }
  split; [|split; [|split; [|split; [|split; [|split]]]]].
  - apply from_identifier_format.
  - intros Hlen Hdig. split; [|split].
    + intros e E1. unfold from_identifier. rewrite Hlen, Hdig, E1. reflexivity.
    + intros yp e E1 E2. unfold from_identifier. rewrite Hlen, Hdig, E1, E2.
      reflexivity.
    + intros yp k H1 H2. split.
      * intros Hk. rewrite (Hparsed s yp k Hlen Hdig H1 H2).
        replace ((k <? 1) || (k >? 14)) with true; [reflexivity|].
        symmetry. apply orb_true_iff. destruct Hk; [left; apply Z.ltb_lt; lia|].
        right. destruct (Z.gtb_spec k 14); [reflexivity|lia].
      * intros Hk. split.
        { intros d c Hv Hd Hy Ho.
          exact (from_identifier_accepts U HU s yp k d c Hlen Hdig H1 H2 Hv Hd Hy Ho). }
        { intros Hnone.
          destruct (from_identifier U s) as [c|e] eqn:Hres.
          - exfalso.
            destruct (from_identifier_inv U s c Hres)
              as (_ & _ & yp' & k' & Hq1 & Hq2 & _ & Hy & Ho & d & Hv & Hd).
            rewrite H1 in Hq1. rewrite H2 in Hq2.
            apply Ok_inj in Hq1, Hq2. subst yp' k'.
            apply (Hnone d c Hv Hd). split; assumption.
          - rewrite (Hparsed s yp k Hlen Hdig H1 H2) in Hres.
            rewrite outside_false in Hres by lia.
            cbv zeta in Hres.
            match type of Hres with
            | (if ?b then _ else _) = _ => destruct b
            end; [now rewrite <- Hres|discriminate]. }
  - intros e He. split; [|intros c Hc; rewrite Hc in He; discriminate].
    destruct (Nat.eq_dec (List.length s) 4) as [Hlen|Hlen].
    2:{ rewrite from_identifier_format in He by (left; exact Hlen).
        apply Raise_inj in He. subst e. reflexivity. }
    destruct (isdigit U s) eqn:Hdig.
    2:{ rewrite from_identifier_format in He by (right; exact Hdig).
        apply Raise_inj in He. subst e. reflexivity. }
    destruct (int U (firstn 2 s)) as [yp|e1] eqn:E1.
    2:{ unfold from_identifier in He. rewrite Hlen, Hdig, E1 in He.
        apply Raise_inj in He. subst e. exact (int_error _ _ _ E1). }
    destruct (int U (skipn 2 s)) as [k|e2] eqn:E2.
    2:{ unfold from_identifier in He. rewrite Hlen, Hdig, E1, E2 in He.
        apply Raise_inj in He. subst e. exact (int_error _ _ _ E2). }
    rewrite (Hparsed s yp k Hlen Hdig E1 E2) in He.
    destruct ((k <? 1) || (k >? 14)); [apply Raise_inj in He; subst e; reflexivity|].
    cbv zeta in He.
    match type of He with
    | (if ?b then _ else _) = _ => destruct b
    end; [apply Raise_inj in He; subst e; reflexivity|discriminate].
  - apply from_identifier_format. right.
    destruct HU as (_ & Hasc & _ & _).
    cbn [pystr list_ascii_of_string map isdigit forallb].
    change (Z.of_N (N_of_ascii "a")) with 97.
    rewrite (Hasc 97) by lia.
    change ((48 <=? 97) && (97 <=? 57)) with false.
    now rewrite !andb_false_r.
  - apply from_identifier_format. left. discriminate.
  - destruct (Hdigits 50 53 49 53) as (Hd & H1 & H2); try lia.
    change [50; 53; 49; 53] with (pystr "2515") in Hd, H1, H2.
    now rewrite (Hparsed (pystr "2515") _ _ eq_refl Hd H1 H2).
  - destruct (Hdigits 50 53 48 48) as (Hd & H1 & H2); try lia.
    change [50; 53; 48; 48] with (pystr "2500") in Hd, H1, H2.
    now rewrite (Hparsed (pystr "2500") _ _ eq_refl Hd H1 H2).
Qed.

Lemma from_identifier_errors_witness :
  from_identifier latin1_data (pystr "2500") = Raise (invalid_ordinal (pystr "2500")).
Proof.
  exact (proj2 (proj2 (proj2 (proj2 (proj2 (proj2
           (from_identifier_errors latin1_data (pystr "2500") latin1_data_sound))))))).
Defined.

(** C4, as stated, fails on the kind of the errors: the errors raised for
    "12a3" (not four digits) and for "2500" (ordinal out of range) are of the
    same exception class, and the error raised for "2514" (no such cycle in
    2025) has the message of the format check. *)
Lemma error_kinds_not_distinct :
  ~ (forall e1 e2,
       from_identifier latin1_data (pystr "12a3") = Raise e1 ->
       from_identifier latin1_data (pystr "2500") = Raise e2 ->
       class_of e1 <> class_of e2) /\
  from_identifier latin1_data (pystr "2514") =
    Raise (invalid_identifier (pystr "2514")).
Proof.
  split.
  - intros H.
    apply (H (invalid_identifier (pystr "12a3")) (invalid_ordinal (pystr "2500")));
      vm_compute; reflexivity.
  - vm_compute. reflexivity.
Qed.

(** C5.  Every cycle returned by an operation of the calculator
    ([from_date], with or without its argument, [from_identifier], [current],
    [next], [previous]) expires 27 days after its effective date. *)
Theorem expiration_after_27_days
    (U : UnicodeData) (today d : date) (s : str) (c0 : option AIRACCycle)
    (c : AIRACCycle) :
  valid_date today = true -> valid_date d = true ->
  (forall c', c0 = Some c' -> valid_date (effective_date c') = true) ->
  from_date d = Ok c \/ from_date_default today = Ok c \/
  from_identifier U s = Ok c \/ current today = Ok c \/
  next today c0 = Ok c \/ previous today c0 = Ok c ->
  date_add (effective_date c) 27 = Ok (expiration_date c).
Proof.
  intros Ht Hd Hc0 H. apply produced_expiration.
  unfold from_date_default, current in H.
  destruct H as [H|[H|[H|[H|[H|H]]]]]; eauto with produced.
Qed.

Lemma expiration_after_27_days_witness :
  date_add (mkdate 2025 11 27) 27 = Ok (mkdate 2025 12 24).
Proof.
  set (c := {| identifier := pystr "2512"; year := 2025; ordinal := 12;
               effective_date := mkdate 2025 11 27;
               expiration_date := mkdate 2025 12 24 |}).
  set (c0 := {| identifier := pystr "2511"; year := 2025; ordinal := 11;
                effective_date := mkdate 2025 10 30;
                expiration_date := mkdate 2025 11 26 |}).
  assert (H : next (mkdate 2025 11 25) (Some c0) = Ok c) by (vm_compute; reflexivity).
  refine (expiration_after_27_days latin1_data (mkdate 2025 11 25) (mkdate 2025 11 25)
            (pystr "2511") (Some c0) c eq_refl eq_refl _ _).
  - intros c' Hc'. injection Hc' as <-. reflexivity.
  - right. right. right. right. left. exact H.
Defined.

(** C6 (as amended).  For every date d from 0001-01-18 to 9999-12-01 the
    cycle of d and its next cycle are contiguous: [from_date d] and [next]
    of it both succeed, and the day after the expiration date of the first
    is the effective date of the second. *)
Theorem cycles_contiguous (today d : date) :
  valid_date d = true ->
  date_leb FIRST_DATE d = true -> date_leb d LAST_WITH_NEXT = true ->
  exists c n,
    from_date d = Ok c /\ next today (Some c) = Ok n /\
    date_add (expiration_date c) 1 = Ok (effective_date n).
Proof.
  intros Hv Hlo Hhi.
  apply date_leb_ord_true in Hlo; [|reflexivity|assumption].
  apply date_leb_ord_true in Hhi; [|assumption|reflexivity].
  change (toordinal FIRST_DATE) with 18 in Hlo.
  change (toordinal LAST_WITH_NEXT) with 3652029 in Hhi.
  set (o := toordinal d) in *.
  assert (Ho : FIRST_ORD <= o <= LAST_ORD) by (unfold FIRST_ORD, LAST_ORD; lia).
  exists (cycle_at o), (cycle_at (cycle_start o + 28)).
  split; [now apply from_date_in_range|]. split.
  - rewrite next_cycle_at by assumption.
    rewrite (proj2 (Z.leb_le _ _)) by lia.
    reflexivity.
  - destruct (cycle_at_facts o Ho) as (_ & _ & Hvx & Hox & _).
    pose proof (cycle_start_range o Ho) as [Hl Hh].
    unfold FIRST_ORD, LAST_ORD in *.
    rewrite (date_add_in_range _ _ Hvx) by (rewrite Hox; unfold MAXORDINAL; lia).
    rewrite Hox. unfold cycle_at at 1. cbn [effective_date].
    replace (cycle_start o + 28) with (cycle_start o + 28 * 1) by lia.
    rewrite cycle_start_shift, cycle_start_idem.
    do 2 f_equal. lia.
Qed.

Lemma cycles_contiguous_witness :
  exists c n,
    from_date (mkdate 2020 12 31) = Ok c /\
    next (mkdate 2025 11 25) (Some c) = Ok n /\
    date_add (expiration_date c) 1 = Ok (effective_date n).
Proof.
  exact (cycles_contiguous (mkdate 2025 11 25) (mkdate 2020 12 31)
           eq_refl eq_refl eq_refl).
Defined.

(** C6, as stated, fails in the last cycle the calculator serves: on
    9999-12-02 [from_date] returns a cycle and [next] of it raises. *)
Lemma contiguity_fails_in_last_cycle :
  valid_date (mkdate 9999 12 2) = true /\
  exists c,
    from_date (mkdate 9999 12 2) = Ok c /\
    forall today, next today (Some c) = Raise out_of_range.
Proof.
  split; [reflexivity|].
  eexists. split; [vm_compute; reflexivity|].
  intros today. vm_compute. reflexivity.
Qed.

(** C7 (as amended).  [next] and [previous] are inverse of each other where
    both succeed.  For the cycle c of a date d: when d is at most 9999-12-01,
    [next c] succeeds, starts 28 days after c and [previous (next c)] is c;
    when d is at least 0001-02-15, [previous c] succeeds, starts 28 days
    before c and [next (previous c)] is c. *)
Theorem next_previous_inverse (today d : date) (c : AIRACCycle) :
  valid_date d = true -> from_date d = Ok c ->
  (date_leb d LAST_WITH_NEXT = true ->
   exists n,
     next today (Some c) = Ok n /\ previous today (Some n) = Ok c /\
     date_add (effective_date c) 28 = Ok (effective_date n)) /\
  (date_leb FIRST_WITH_PREVIOUS d = true ->
   exists p,
     previous today (Some c) = Ok p /\ next today (Some p) = Ok c /\
     date_add (effective_date p) 28 = Ok (effective_date c)).
Proof.
  intros Hv H. destruct (from_date_ok d c Hv H) as [Ho ->].
  set (o := toordinal d) in *.
  pose proof (cycle_start_range o Ho) as [Hl Hh].
  pose proof (cycle_start_bounds o) as [Hb Hm].
  destruct (cycle_at_facts o Ho) as (Hve & Hoe & _).
  unfold FIRST_ORD, LAST_ORD in *.
  split.
  - intros Hhi. apply date_leb_ord_true in Hhi; [|assumption|reflexivity].
    change (toordinal LAST_WITH_NEXT) with 3652029 in Hhi. fold o in Hhi.
    exists (cycle_at (cycle_start o + 28)).
    assert (Hn : FIRST_ORD <= cycle_start o + 28 <= LAST_ORD)
      by (unfold FIRST_ORD, LAST_ORD; lia).
    split; [|split].
    + rewrite next_cycle_at by (unfold FIRST_ORD, LAST_ORD; lia).
      rewrite (proj2 (Z.leb_le _ _)) by lia.
      reflexivity.
    + rewrite previous_cycle_at by assumption.
      rewrite (proj2 (Z.leb_le _ _)) by lia.
      f_equal. apply cycle_at_same.
      replace (cycle_start o + 28) with (cycle_start o + 28 * 1) by lia.
      rewrite cycle_start_shift, cycle_start_idem.
      apply cycle_start_unique; [lia|exact Hm].
    + rewrite (date_add_in_range _ _ Hve) by (rewrite Hoe; unfold MAXORDINAL; lia).
      rewrite Hoe. unfold cycle_at. cbn [effective_date].
      replace (cycle_start o + 28) with (cycle_start o + 28 * 1) by lia.
      rewrite cycle_start_shift, cycle_start_idem. reflexivity.
  - intros Hlo. apply date_leb_ord_true in Hlo; [|reflexivity|assumption].
    change (toordinal FIRST_WITH_PREVIOUS) with 46 in Hlo. fold o in Hlo.
    assert (He46 : 46 <= cycle_start o)
      by (unfold E in *; Z.div_mod_to_equations; lia).
    assert (Hcs : cycle_start (cycle_start o - 1) = cycle_start o - 28).
    { apply cycle_start_unique; [lia|].
      unfold E in *. Z.div_mod_to_equations. lia. }
    exists (cycle_at (cycle_start o - 1)).
    assert (Hp : FIRST_ORD <= cycle_start o - 1 <= LAST_ORD)
      by (unfold FIRST_ORD, LAST_ORD; lia).
    split; [|split].
    + rewrite previous_cycle_at by (unfold FIRST_ORD, LAST_ORD; lia).
      rewrite (proj2 (Z.leb_le _ _)) by lia.
      reflexivity.
    + rewrite next_cycle_at by assumption.
      rewrite (proj2 (Z.leb_le _ _)) by lia.
      f_equal. apply cycle_at_same. rewrite Hcs.
      replace (cycle_start o - 28 + 28) with (cycle_start o) by lia.
      apply cycle_start_idem.
    + destruct (cycle_at_facts _ Hp) as (Hvp & Hop & _).
      rewrite (date_add_in_range _ _ Hvp) by (rewrite Hop, Hcs; unfold MAXORDINAL; lia).
      rewrite Hop, Hcs.
      replace (cycle_start o - 28 + 28) with (cycle_start o) by lia.
      unfold cycle_at. cbn [effective_date]. reflexivity.
Qed.

Lemma next_previous_inverse_witness :
  let c := {| identifier := pystr "2001"; year := 2020; ordinal := 1;
              effective_date := mkdate 2020 1 2;
              expiration_date := mkdate 2020 1 29 |} in
  (exists n,
     next EPOCH (Some c) = Ok n /\ previous EPOCH (Some n) = Ok c /\
     date_add (effective_date c) 28 = Ok (effective_date n)) /\
  (exists p,
     previous EPOCH (Some c) = Ok p /\ next EPOCH (Some p) = Ok c /\
     date_add (effective_date p) 28 = Ok (effective_date c)).
Proof.
  intros c.
  assert (H : from_date (mkdate 2020 1 20) = Ok c) by (vm_compute; reflexivity).
  destruct (next_previous_inverse EPOCH (mkdate 2020 1 20) c eq_refl H) as [Hn Hp].
  split; [exact (Hn eq_refl)|exact (Hp eq_refl)].
Defined.

(** C7, as stated, fails for the last cycle the calculator serves: [next]
    of it raises, so [previous (next c)] is not c. *)
Lemma next_fails_on_last_cycle :
  exists c,
    from_date (mkdate 9999 12 29) = Ok c /\
    forall today, next today (Some c) = Raise out_of_range.
Proof.
  eexists. split; [vm_compute; reflexivity|].
  intros today. vm_compute. reflexivity.
Qed.

(** C8.  When [from_identifier] succeeds, its input is made of four decimal
    digits; with year_part the number written by the first two and ordinal
    the number written by the last two, the returned cycle has year
    1900 + year_part if year_part >= 64 and 2000 + year_part otherwise, it
    has that ordinal, and it is a cycle of the calculator (the cycle of some
    date).  So an input whose ordinal no cycle of the resolved year bears is
    rejected. *)
Theorem from_identifier_year_and_ordinal (U : UnicodeData) (s : str) :
  unicode_sound U ->
  (forall c, from_identifier U s = Ok c ->
     exists a b a' b' x y x' y',
       s = [a; b; a'; b'] /\
       todecimal U a = Some x /\ todecimal U b = Some y /\
       todecimal U a' = Some x' /\ todecimal U b' = Some y' /\
       let year_part := 10 * x + y in
       year c = (if year_part >=? 64 then 1900 + year_part else 2000 + year_part) /\
       ordinal c = 10 * x' + y' /\
       exists d, valid_date d = true /\ from_date d = Ok c) /\
  (forall year_part k,
     int U (firstn 2 s) = Ok year_part -> int U (skipn 2 s) = Ok k ->
     (forall d c, valid_date d = true -> from_date d = Ok c ->
                  ~ (year c = century year_part /\ ordinal c = k)) ->
     exists e, from_identifier U s = Raise e).
Proof.
  intros HU. split.
  - intros c H.
    destruct (from_identifier_inv U s c H)
      as (Hlen & _ & yp & k & Hp1 & Hp2 & _ & Hy & Hk & Hp).
    destruct s as [|a [|b [|a' [|b' [|? ?]]]]]; try discriminate.
    cbn [firstn] in Hp1. cbn [skipn] in Hp2.
    destruct (int_two U HU a b yp Hp1) as (x & y & Ha & Hb & -> & _).
    destruct (int_two U HU a' b' k Hp2) as (x' & y' & Ha' & Hb' & -> & _).
    exists a, b, a', b', x, y, x', y'.
    repeat split; try assumption.
  - intros yp k Hp1 Hp2 Hnone.
    destruct (from_identifier U s) as [c|e] eqn:H; [|eauto].
    exfalso.
    destruct (from_identifier_inv U s c H)
      as (_ & _ & yp' & k' & Hq1 & Hq2 & _ & Hy & Hk & d & Hv & Hd).
    rewrite Hp1 in Hq1. rewrite Hp2 in Hq2.
    apply Ok_inj in Hq1, Hq2. subst yp' k'.
    apply (Hnone d c Hv Hd). split; assumption.
Qed.

Lemma from_identifier_year_and_ordinal_witness :
  let c := {| identifier := pystr "9901"; year := 1999; ordinal := 1;
              effective_date := mkdate 1999 1 28;
              expiration_date := mkdate 1999 2 24 |} in
  from_identifier latin1_data (pystr "9901") = Ok c /\
  exists a b a' b' x y x' y',
    pystr "9901" = [a; b; a'; b'] /\
    todecimal latin1_data a = Some x /\ todecimal latin1_data b = Some y /\
    todecimal latin1_data a' = Some x' /\ todecimal latin1_data b' = Some y' /\
    let year_part := 10 * x + y in
    year c = (if year_part >=? 64 then 1900 + year_part else 2000 + year_part) /\
    ordinal c = 10 * x' + y' /\
    exists d, valid_date d = true /\ from_date d = Ok c.
Proof.
  intros c.
  assert (H : from_identifier latin1_data (pystr "9901") = Ok c)
    by (vm_compute; reflexivity).
  split; [exact H|].
  exact (proj1 (from_identifier_year_and_ordinal latin1_data (pystr "9901")
                  latin1_data_sound) c H).
Defined.

(** Year 2025 has 13 cycles: a 14th is rejected. *)
Example from_identifier_2514 :
  from_identifier latin1_data (pystr "2514") =
  Raise (invalid_identifier (pystr "2514")).
Proof. vm_compute. reflexivity. Qed.

(** C9.  The anchor values: the epoch 2020-01-02 starts cycle "2001", which
    expires on 2020-01-29; 2020-01-30 starts cycle "2002"; 2020-12-31 is in
    cycle "2014", the 14th of 2020. *)
Theorem anchor_values :
  EPOCH = mkdate 2020 1 2 /\
  from_date (mkdate 2020 1 2) =
    Ok {| identifier := pystr "2001"; year := 2020; ordinal := 1;
          effective_date := mkdate 2020 1 2;
          expiration_date := mkdate 2020 1 29 |} /\
  from_date (mkdate 2020 1 30) =
    Ok {| identifier := pystr "2002"; year := 2020; ordinal := 2;
          effective_date := mkdate 2020 1 30;
          expiration_date := mkdate 2020 2 26 |} /\
  from_date (mkdate 2020 12 31) =
    Ok {| identifier := pystr "2014"; year := 2020; ordinal := 14;
          effective_date := mkdate 2020 12 31;
          expiration_date := mkdate 2021 1 27 |}.
Proof. repeat split; vm_compute; reflexivity. Qed.

(** C10, as stated, fails for a 14th cycle: the cycle of 2065-12-31, of a
    year outside the window, bears the identifier "6514", and no cycle of
    1965 or of 2165, the years 100 away, bears that identifier (these years
    have 13 cycles). *)
Lemma no_namesake_100_years_from_2065 :
  let c := {| identifier := pystr "6514"; year := 2065; ordinal := 14;
              effective_date := mkdate 2065 12 31;
              expiration_date := mkdate 2066 1 27 |} in
  from_date (mkdate 2065 12 31) = Ok c /\
  ~ 1964 <= year c <= 2063 /\
  forall d' c', valid_date d' = true -> from_date d' = Ok c' ->
    year c' = year c + 100 \/ year c' = year c - 100 ->
    identifier c' <> identifier c.
Proof.
  intros c. split; [vm_compute; reflexivity|].
  split; [cbn [year c]; lia|].
  intros d' c' Hv H Hy Hid.
  destruct (from_date_ok d' c' Hv H) as [Ho ->].
  set (o := toordinal d') in *. clearbody o. clear H Hv d'.
  rewrite (identifier_cycle_at _ Ho) in Hid.
  destruct (cycle_at_facts o Ho) as (_ & _ & _ & _ & _ & _ & Hfb & He & Hk).
  change (identifier c)
    with [48 + (2065 mod 100) / 10; 48 + (2065 mod 100) mod 10;
          48 + 14 / 10; 48 + 14 mod 10] in Hid.
  destruct (identifier_digits_inj (year (cycle_at o)) (ordinal (cycle_at o))
              2065 14 ltac:(lia) ltac:(lia) Hid) as [Hk14 _].
  cbn [year c] in Hy. rewrite Hk14 in He. rewrite He in Hfb. clear He Hid Hk.
  assert (H1965 : days_before_year 1966 < first_boundary 1965 + 28 * (14 - 1))
    by (vm_compute; reflexivity).
  assert (H2165 : days_before_year 2166 < first_boundary 2165 + 28 * (14 - 1))
    by (vm_compute; reflexivity).
  destruct Hy as [Hy | Hy]; rewrite Hy in Hfb.
  - change (2065 + 100 + 1) with 2166 in Hfb. change (2065 + 100) with 2165 in Hfb. lia.
  - change (2065 - 100 + 1) with 1966 in Hfb. change (2065 - 100) with 1965 in Hfb. lia.
Qed.

(** C10 (as amended).  The identifier holds the year modulo 100 only, so the
    round trip through [from_identifier] holds inside the century window and
    only there.  For the cycle c of a date d: if its year is in [1964, 2063],
    [from_identifier] of its identifier returns c; if not, whatever
    [from_identifier] returns is another cycle, of a year in the window a
    multiple of 100 years away, with the same ordinal and identifier.
    Cycles whose years differ by a multiple of 100 and whose ordinals agree
    have the same identifier, and c has such a namesake in another year (1600
    years away, where the calendar and the cycles repeat); when the ordinal
    of c is at most 13, the years 100 before and 100 after (within 1..9998)
    have one. *)
Theorem round_trip_inside_century_window
    (U : UnicodeData) (d : date) (c : AIRACCycle) :
  unicode_sound U -> valid_date d = true -> from_date d = Ok c ->
  (1964 <= year c <= 2063 -> from_identifier U (identifier c) = Ok c) /\
  (~ 1964 <= year c <= 2063 ->
   forall r, from_identifier U (identifier c) = Ok r ->
     r <> c /\ identifier r = identifier c /\ ordinal r = ordinal c /\
     1964 <= year r <= 2063 /\ (year r - year c) mod 100 = 0) /\
  (forall d' c', valid_date d' = true -> from_date d' = Ok c' ->
     (year c' - year c) mod 100 = 0 -> ordinal c' = ordinal c ->
     identifier c' = identifier c) /\
  (exists d' c', valid_date d' = true /\ from_date d' = Ok c' /\
     year c' <> year c /\ (year c' - year c) mod 100 = 0 /\
     ordinal c' = ordinal c /\ identifier c' = identifier c) /\
  (forall y', ordinal c <= 13 -> y' = year c + 100 \/ y' = year c - 100 ->
     1 <= y' <= 9998 ->
     exists d' c', valid_date d' = true /\ from_date d' = Ok c' /\
       year c' = y' /\ ordinal c' = ordinal c /\ identifier c' = identifier c).
Proof.
  intros HU Hv H. destruct (from_date_ok d c Hv H) as [Ho ->].
  set (o := toordinal d) in *. clearbody o. clear H Hv d.
  destruct (cycle_at_facts o Ho) as (_ & _ & _ & _ & _ & Hy & _ & _ & Hk).
  assert (Hdate : forall o', FIRST_ORD <= o' <= LAST_ORD ->
            valid_date (date_of_ord o') = true /\
            from_date (date_of_ord o') = Ok (cycle_at o')).
  { intros o' Ho'.
    destruct (date_of_ord_spec o' ltac:(unfold FIRST_ORD, LAST_ORD, MAXORDINAL in *; lia))
      as (Hvd & Hod & _).
    split; [exact Hvd|].
    rewrite from_date_in_range by (rewrite ?Hod; assumption). now rewrite Hod. }
  split; [|split; [|split; [|split]]].
  - intros Hw. now apply round_trip_cycle_at.
  - intros Hout r Hr.
    pose proof (from_identifier_inv U _ r Hr)
      as (Hlen & _ & yp & k & Hp1 & Hp2 & _ & Hyr & Hkr & Hpr).
    assert (Hyy : 0 <= year (cycle_at o) mod 100 <= 99)
      by (Z.div_mod_to_equations; lia).
    destruct (parse_generated U HU _ (ordinal (cycle_at o)) Hyy ltac:(lia))
      as (_ & _ & Hq1 & Hq2).
    rewrite <- identifier_cycle_at in Hq1, Hq2 by assumption.
    pose proof (eq_trans (eq_sym Hq1) Hp1) as Hy1.
    pose proof (eq_trans (eq_sym Hq2) Hp2) as Hk2.
    apply Ok_inj in Hy1, Hk2. subst yp k.
    pose proof (century_range _ Hyy) as Hcr. rewrite <- Hyr in Hcr.
    assert (Hcong : (year r - year (cycle_at o)) mod 100 = 0).
    { rewrite Hyr. unfold century.
      destruct (year (cycle_at o) mod 100 >=? 64); Z.div_mod_to_equations; lia. }
    destruct (produced_cycle_at r Hpr) as (o' & Ho' & ->).
    repeat split; try lia.
    + intros Heq. apply Hout. rewrite <- Heq. exact Hcr.
    + now apply identifier_congruent.
  - intros d' c' Hv' H' Hcong Hord.
    destruct (from_date_ok d' c' Hv' H') as [Ho' ->].
    now apply identifier_congruent.
  - destruct (identifier_shared o Ho) as (o' & Ho' & Hne & Hc & Hko & Hid).
    destruct (Hdate o' Ho') as [Hvd Hfd].
    exists (date_of_ord o'), (cycle_at o'). repeat split; assumption.
  - intros y' Hk13 Hy' Hr'.
    destruct (cycle_of_year_exists y' (ordinal (cycle_at o)) Hr' ltac:(lia)
                (thirteen_cycles y' (ordinal (cycle_at o)) ltac:(lia)))
      as (Ho' & Hyo' & Hko').
    set (o' := first_boundary y' + 28 * (ordinal (cycle_at o) - 1)) in *.
    destruct (Hdate o' Ho') as [Hvd Hfd].
    exists (date_of_ord o'), (cycle_at o').
    split; [exact Hvd|]. split; [exact Hfd|].
    split; [exact Hyo'|]. split; [exact Hko'|].
    apply identifier_congruent; try assumption.
    rewrite Hyo'. destruct Hy' as [-> | ->]; Z.div_mod_to_equations; lia.
Qed.

Lemma round_trip_inside_century_window_witness :
  let c := {| identifier := pystr "2511"; year := 2025; ordinal := 11;
              effective_date := mkdate 2025 10 30;
              expiration_date := mkdate 2025 11 26 |} in
  from_identifier latin1_data (identifier c) = Ok c.
Proof.
  intros c.
  assert (H : from_date (mkdate 2025 11 25) = Ok c) by (vm_compute; reflexivity).
  apply (round_trip_inside_century_window latin1_data (mkdate 2025 11 25) c
           latin1_data_sound eq_refl H).
  cbn [year c]. lia.
Defined.

(** ** Further properties of the calculator *)

Lemma produced_ordinals d c :
  valid_date d = true -> from_date d = Ok c ->
  FIRST_ORD <= toordinal d <= LAST_ORD /\ c = cycle_at (toordinal d) /\
  toordinal (effective_date c) = cycle_start (toordinal d) /\
  toordinal (expiration_date c) = cycle_start (toordinal d) + 27 /\
  valid_date (effective_date c) = true /\
  valid_date (expiration_date c) = true.
Proof.
  intros Hv H. destruct (from_date_ok d c Hv H) as [Ho ->].
  destruct (cycle_at_facts _ Ho) as (Hve & Hoe & Hvx & Hox & _).
  repeat split; try assumption; apply Ho.
Qed.

(** X1.  All the dates of a cycle give that cycle: if [from_date d1] returns
    c and d2 lies between the effective and the expiration date of c, then
    [from_date d2] returns c too; in particular [from_date] of the effective
    date and of the expiration date of c return c. *)
Theorem from_date_same_cycle (d1 d2 : date) (c : AIRACCycle) :
  valid_date d1 = true -> valid_date d2 = true ->
  from_date d1 = Ok c ->
  date_leb (effective_date c) d2 = true ->
  date_leb d2 (expiration_date c) = true ->
  from_date d2 = Ok c /\
  from_date (effective_date c) = Ok c /\
  from_date (expiration_date c) = Ok c.
Proof.
  intros Hv1 Hv2 H Hlo Hhi.
  destruct (produced_ordinals d1 c Hv1 H) as (Ho & Hc & Hoe & Hox & Hve & Hvx).
  apply date_leb_ord_true in Hlo; [|assumption|assumption].
  apply date_leb_ord_true in Hhi; [|assumption|assumption].
  rewrite Hoe in Hlo. rewrite Hox in Hhi.
  pose proof (cycle_start_range _ Ho) as [Hl Hh].
  pose proof (cycle_start_bounds (toordinal d1)) as [Hb Hm].
  assert (Hsame : forall d, valid_date d = true ->
            cycle_start (toordinal d1) <= toordinal d <= cycle_start (toordinal d1) + 27 ->
            from_date d = Ok c).
  { intros d Hv Hd.
    rewrite from_date_in_range by (assumption || (unfold FIRST_ORD, LAST_ORD in *; lia)).
    rewrite Hc. f_equal. apply cycle_at_same.
    apply cycle_start_unique; [lia|exact Hm]. }
  split; [|split].
  - apply Hsame; [assumption|lia].
  - apply Hsame; [assumption|lia].
  - apply Hsame; [assumption|lia].
Qed.

Lemma from_date_same_cycle_witness :
  let c := {| identifier := pystr "2511"; year := 2025; ordinal := 11;
              effective_date := mkdate 2025 10 30;
              expiration_date := mkdate 2025 11 26 |} in
  from_date (mkdate 2025 11 1) = Ok c /\
  from_date (effective_date c) = Ok c /\
  from_date (expiration_date c) = Ok c.
Proof.
  intros c.
  assert (H : from_date (mkdate 2025 11 25) = Ok c) by (vm_compute; reflexivity).
  exact (from_date_same_cycle (mkdate 2025 11 25) (mkdate 2025 11 1) c
           eq_refl eq_refl H eq_refl eq_refl).
Defined.

(** X2.  The identifier of a returned cycle is made of exactly four ASCII
    digits: the two digits of the year modulo 100, then the two digits of the
    ordinal.  It passes [isdigit], and [int] reads the year modulo 100 from
    its first half and the ordinal from its second half. *)
Theorem identifier_four_digits (U : UnicodeData) (d : date) (c : AIRACCycle) :
  unicode_sound U -> valid_date d = true -> from_date d = Ok c ->
  identifier c =
    [48 + (year c mod 100) / 10; 48 + (year c mod 100) mod 10;
     48 + ordinal c / 10; 48 + ordinal c mod 10] /\
  List.length (identifier c) = 4%nat /\
  Forall (fun ch => 48 <= ch <= 57) (identifier c) /\
  isdigit U (identifier c) = true /\
  int U (firstn 2 (identifier c)) = Ok (year c mod 100) /\
  int U (skipn 2 (identifier c)) = Ok (ordinal c).
Proof.
  intros HU Hv H. destruct (from_date_ok d c Hv H) as [Ho ->].
  destruct (cycle_at_facts _ Ho) as (_ & _ & _ & _ & _ & Hy & _ & _ & Hk).
  assert (Hyy : 0 <= year (cycle_at (toordinal d)) mod 100 <= 99)
    by (Z.div_mod_to_equations; lia).
  destruct (parse_generated U HU _ (ordinal (cycle_at (toordinal d))) Hyy ltac:(lia))
    as (Hlen & Hdig & Hp1 & Hp2).
  rewrite (identifier_cycle_at _ Ho).
  split; [reflexivity|]. split; [exact Hlen|]. split.
  - repeat constructor; Z.div_mod_to_equations; lia.
  - split; [exact Hdig|]. split; assumption.
Qed.

Lemma identifier_four_digits_witness :
  let c := {| identifier := pystr "2511"; year := 2025; ordinal := 11;
              effective_date := mkdate 2025 10 30;
              expiration_date := mkdate 2025 11 26 |} in
  List.length (identifier c) = 4%nat /\
  int latin1_data (firstn 2 (identifier c)) = Ok (year c mod 100) /\
  int latin1_data (skipn 2 (identifier c)) = Ok (ordinal c).
Proof.
  intros c.
  assert (H : from_date (mkdate 2025 11 25) = Ok c) by (vm_compute; reflexivity).
  destruct (identifier_four_digits latin1_data (mkdate 2025 11 25) c
              latin1_data_sound eq_refl H) as (_ & Hl & _ & _ & H1 & H2).
  exact (conj Hl (conj H1 H2)).
Defined.

(** X3.  [from_date] is monotone: a later date never gets an earlier cycle.
    Two returned cycles are equal or do not overlap: when d1 <= d2, either
    both dates get the same cycle, or the cycle of d1 expires before the
    cycle of d2 takes effect. *)
Theorem from_date_monotone (d1 d2 : date) (c1 c2 : AIRACCycle) :
  valid_date d1 = true -> valid_date d2 = true ->
  from_date d1 = Ok c1 -> from_date d2 = Ok c2 ->
  date_leb d1 d2 = true ->
  date_leb (effective_date c1) (effective_date c2) = true /\
  (c1 = c2 \/ date_ltb (expiration_date c1) (effective_date c2) = true).
Proof.
  intros Hv1 Hv2 H1 H2 Hle.
  destruct (produced_ordinals d1 c1 Hv1 H1) as (Ho1 & Hc1 & He1 & Hx1 & Hve1 & Hvx1).
  destruct (produced_ordinals d2 c2 Hv2 H2) as (Ho2 & Hc2 & He2 & Hx2 & Hve2 & Hvx2).
  apply date_leb_ord_true in Hle; [|assumption|assumption].
  pose proof (cycle_start_bounds (toordinal d1)) as [Hb1 Hm1].
  pose proof (cycle_start_bounds (toordinal d2)) as [Hb2 Hm2].
  assert (Hcases : cycle_start (toordinal d1) = cycle_start (toordinal d2) \/
                   cycle_start (toordinal d1) + 28 <= cycle_start (toordinal d2))
    by (unfold E in *; Z.div_mod_to_equations; lia).
  split.
  - rewrite date_leb_ord by assumption. rewrite He1, He2. apply Z.leb_le. lia.
  - destruct Hcases as [Heq|Hlt].
    + left. rewrite Hc1, Hc2. now apply cycle_at_same.
    + right. rewrite date_ltb_ord by assumption. rewrite Hx1, He2.
      apply Z.ltb_lt. lia.
Qed.

Lemma from_date_monotone_witness :
  let c1 := {| identifier := pystr "2001"; year := 2020; ordinal := 1;
               effective_date := mkdate 2020 1 2;
               expiration_date := mkdate 2020 1 29 |} in
  let c2 := {| identifier := pystr "2002"; year := 2020; ordinal := 2;
               effective_date := mkdate 2020 1 30;
               expiration_date := mkdate 2020 2 26 |} in
  date_leb (effective_date c1) (effective_date c2) = true /\
  (c1 = c2 \/ date_ltb (expiration_date c1) (effective_date c2) = true).
Proof.
  intros c1 c2.
  assert (H1 : from_date (mkdate 2020 1 29) = Ok c1) by (vm_compute; reflexivity).
  assert (H2 : from_date (mkdate 2020 1 30) = Ok c2) by (vm_compute; reflexivity).
  exact (from_date_monotone (mkdate 2020 1 29) (mkdate 2020 1 30) c1 c2
           eq_refl eq_refl H1 H2 eq_refl).
Defined.

Lemma leap_day_bounds y : 0 <= b2z (is_leap y) <= 1.
Proof. unfold b2z. destruct (is_leap y); lia. Qed.

(** X4.  The year of a cycle is the calendar year of its effective date, so
    it is the year of the query date or the year before; it is the year
    before exactly when the query date precedes the first cycle boundary of
    its own year (first days of January). *)
Theorem cycle_year_of_query (d : date) (c : AIRACCycle) :
  valid_date d = true -> from_date d = Ok c ->
  year c = Calendar.year (effective_date c) /\
  (year c = Calendar.year d \/ year c = Calendar.year d - 1) /\
  (year c = Calendar.year d - 1 <->
   toordinal d < first_boundary (Calendar.year d)).
Proof.
  intros Hv H. destruct (from_date_ok d c Hv H) as [Ho ->].
  destruct (cycle_at_facts _ Ho) as (_ & _ & _ & _ & Hyy & Hy & Hfe & He & Hk).
  pose proof (cycle_start_bounds (toordinal d)) as [Hb Hm].
  pose proof (toordinal_year_bounds d Hv) as Hd.
  set (y := year (cycle_at (toordinal d))) in *.
  set (e := cycle_start (toordinal d)) in *.
  set (yd := Calendar.year d) in *.
  pose proof (first_boundary_spec y) as [Hfb Hfm].
  pose proof (first_boundary_spec yd) as [Hfbd Hfmd].
  pose proof (days_before_year_succ y) as Hs.
  pose proof (leap_day_bounds y) as Hl.
  assert (Hge : y <= yd).
  { destruct (Z_le_gt_dec y yd) as [|Hgt]; [assumption|exfalso].
    pose proof (days_before_year_le (yd + 1) y ltac:(lia)). lia. }
  assert (Hle : yd <= y + 1).
  { destruct (Z_le_gt_dec yd (y + 1)) as [|Hgt]; [assumption|exfalso].
    pose proof (days_before_year_le (y + 1 + 1) yd ltac:(lia)) as H2.
    pose proof (days_before_year_succ (y + 1)) as Hs'.
    pose proof (leap_day_bounds (y + 1)). lia. }
  split; [exact Hyy|]. split; [lia|].
  split.
  - intros Heq. replace yd with (y + 1) in * by lia.
    unfold E in *. Z.div_mod_to_equations. lia.
  - intros Hlt. destruct (Z.eq_dec y yd) as [Heq|]; [|lia].
    exfalso. rewrite <- Heq in Hlt. lia.
Qed.

Lemma cycle_year_of_query_witness :
  let c := {| identifier := pystr "2014"; year := 2020; ordinal := 14;
              effective_date := mkdate 2020 12 31;
              expiration_date := mkdate 2021 1 27 |} in
  year c = Calendar.year (effective_date c) /\
  (year c = Calendar.year (mkdate 2021 1 5) \/
   year c = Calendar.year (mkdate 2021 1 5) - 1).
Proof.
  intros c.
  assert (H : from_date (mkdate 2021 1 5) = Ok c) by (vm_compute; reflexivity).
  destruct (cycle_year_of_query (mkdate 2021 1 5) c eq_refl H) as (H1 & H2 & _).
  exact (conj H1 H2).
Defined.

(** X5.  [next] numbers the cycles in sequence: the next cycle of a returned
    cycle has the next ordinal of the same year, or it is cycle 1 of the next
    year, and this only after a 13th or 14th cycle. *)
Theorem next_numbering (today d : date) (c n : AIRACCycle) :
  valid_date d = true -> from_date d = Ok c ->
  next today (Some c) = Ok n ->
  (year n = year c /\ ordinal n = ordinal c + 1) \/
  (year n = year c + 1 /\ ordinal n = 1 /\ 13 <= ordinal c).
Proof.
  intros Hv H Hn. destruct (from_date_ok d c Hv H) as [Ho ->].
  rewrite next_cycle_at in Hn by assumption.
  destruct (toordinal d <=? 3652029) eqn:Hr; [|discriminate].
  apply Z.leb_le in Hr. apply Ok_inj in Hn. subst n.
  pose proof (cycle_start_bounds (toordinal d)) as [Hb Hm].
  pose proof (cycle_start_range _ Ho) as [Hlo Hhi].
  set (e := cycle_start (toordinal d)) in *.
  assert (Ho' : FIRST_ORD <= e + 28 <= LAST_ORD)
    by (unfold FIRST_ORD, LAST_ORD in *; lia).
  destruct (cycle_at_facts _ Ho) as (_ & _ & _ & _ & _ & Hy & Hfe & He & Hk).
  destruct (cycle_at_facts _ Ho') as (_ & _ & _ & _ & _ & Hy' & Hfe' & He' & Hk').
  fold e in Hfe, He.
  assert (Hcs : cycle_start (e + 28) = e + 28).
  { apply cycle_start_unique; [lia|]. unfold E in *. Z.div_mod_to_equations. lia. }
  rewrite Hcs in Hfe', He'.
  set (y := year (cycle_at (toordinal d))) in *.
  set (k := ordinal (cycle_at (toordinal d))) in *.
  set (y' := year (cycle_at (e + 28))) in *.
  set (k' := ordinal (cycle_at (e + 28))) in *.
  clearbody y k y' k' e.
  pose proof (first_boundary_spec y) as [Hfb Hfm].
  pose proof (first_boundary_spec y') as [Hfb' Hfm'].
  pose proof (days_before_year_succ y) as Hs.
  pose proof (leap_day_bounds y) as Hl.
  assert (Hge : y <= y').
  { destruct (Z_le_gt_dec y y') as [|Hgt]; [assumption|exfalso].
    pose proof (days_before_year_le (y' + 1) y ltac:(lia)). lia. }
  assert (Hle : y' <= y + 1).
  { destruct (Z_le_gt_dec y' (y + 1)) as [|Hgt]; [assumption|exfalso].
    pose proof (days_before_year_le (y + 1 + 1) y' ltac:(lia)) as H2.
    pose proof (days_before_year_succ (y + 1)) as Hs'.
    pose proof (leap_day_bounds (y + 1)). lia. }
  destruct (Z.eq_dec y' y) as [Heq|Hne].
  - left. subst y'. lia.
  - right. assert (Hy1 : y' = y + 1) by lia. subst y'.
    split; [reflexivity|].
    unfold E in *. Z.div_mod_to_equations. lia.
Qed.

Lemma next_numbering_witness :
  let c := {| identifier := pystr "2014"; year := 2020; ordinal := 14;
              effective_date := mkdate 2020 12 31;
              expiration_date := mkdate 2021 1 27 |} in
  let n := {| identifier := pystr "2101"; year := 2021; ordinal := 1;
              effective_date := mkdate 2021 1 28;
              expiration_date := mkdate 2021 2 24 |} in
  (year n = year c /\ ordinal n = ordinal c + 1) \/
  (year n = year c + 1 /\ ordinal n = 1 /\ 13 <= ordinal c).
Proof.
  intros c n.
  assert (H : from_date (mkdate 2021 1 5) = Ok c) by (vm_compute; reflexivity).
  assert (Hn : next EPOCH (Some c) = Ok n) by (vm_compute; reflexivity).
  exact (next_numbering EPOCH (mkdate 2021 1 5) c n eq_refl H Hn).
Defined.

(** X6.  Every year from 1 to 9998 has cycles numbered 1 to 13, and a 14th
    cycle exactly when its January 1st is a cycle boundary, or it is a leap
    year and its January 2nd is one. *)
Theorem cycles_of_a_year (y : Z) :
  1 <= y <= 9998 ->
  (forall k, 1 <= k <= 13 ->
     exists d c, valid_date d = true /\ from_date d = Ok c /\
                 year c = y /\ ordinal c = k) /\
  ((exists d c, valid_date d = true /\ from_date d = Ok c /\
                year c = y /\ ordinal c = 14) <->
   date_diff_days (mkdate y 1 1) EPOCH mod 28 = 0 \/
   (is_leap y = true /\ date_diff_days (mkdate y 1 2) EPOCH mod 28 = 0)).
Proof.
  intros Hy.
  assert (Hbuild : forall k, 1 <= k ->
            first_boundary y + 28 * (k - 1) <= days_before_year (y + 1) ->
            exists d c, valid_date d = true /\ from_date d = Ok c /\
                        year c = y /\ ordinal c = k).
  { intros k Hk Hin.
    destruct (cycle_of_year_exists y k Hy Hk Hin) as (Ho & Hyo & Hko).
    set (o := first_boundary y + 28 * (k - 1)) in *.
    destruct (date_of_ord_spec o ltac:(unfold FIRST_ORD, LAST_ORD, MAXORDINAL in *; lia))
      as (Hvd & Hod & _).
    exists (date_of_ord o), (cycle_at o).
    split; [exact Hvd|]. split; [|split; assumption].
    rewrite from_date_in_range by (rewrite ?Hod; assumption). now rewrite Hod. }
  assert (Hj2 : toordinal (mkdate y 1 2) = days_before_year y + 2).
  { unfold toordinal, ymd2ord. cbn [Calendar.year month day].
    change (days_before_month y 1) with 0. lia. }
  pose proof (first_boundary_spec y) as [Hfb Hfm].
  pose proof (days_before_year_succ y) as Hs.
  split.
  - intros k Hk. apply Hbuild; [lia|]. apply thirteen_cycles. exact Hk.
  - unfold date_diff_days. rewrite toordinal_jan1, Hj2, toordinal_EPOCH.
    split.
    + intros (d & c & Hv & Hd & Hyc & Hkc).
      destruct (from_date_ok d c Hv Hd) as [Ho ->].
      destruct (cycle_at_facts _ Ho) as (_ & _ & _ & _ & _ & _ & Hfe & He & _).
      rewrite Hyc in Hfe, He. rewrite Hkc in He.
      destruct (is_leap y); cbn [b2z] in Hs.
      * assert (Hc : first_boundary y = days_before_year y + 1 \/
                     first_boundary y = days_before_year y + 2) by lia.
        destruct Hc as [Hc|Hc]; rewrite <- Hc; [left|right; split; [reflexivity|]];
          exact Hfm.
      * left. replace (days_before_year y + 1) with (first_boundary y) by lia.
        exact Hfm.
    + intros Hcase. apply Hbuild; [lia|].
      assert (Hc : first_boundary y <= days_before_year y + 1 + b2z (is_leap y)).
      { destruct Hcase as [H1|[Hl H2]].
        - pose proof (leap_day_bounds y).
          unfold E in *. Z.div_mod_to_equations. lia.
        - rewrite Hl. cbn [b2z]. unfold E in *. Z.div_mod_to_equations. lia. }
      lia.
Qed.

Lemma cycles_of_a_year_witness :
  (forall k, 1 <= k <= 13 ->
     exists d c, valid_date d = true /\ from_date d = Ok c /\
                 year c = 2020 /\ ordinal c = k) /\
  ((exists d c, valid_date d = true /\ from_date d = Ok c /\
                year c = 2020 /\ ordinal c = 14) <->
   date_diff_days (mkdate 2020 1 1) EPOCH mod 28 = 0 \/
   (is_leap 2020 = true /\ date_diff_days (mkdate 2020 1 2) EPOCH mod 28 = 0)).
Proof.
  apply (cycles_of_a_year 2020). lia.
Defined.

(** X7.  [from_identifier] gives back a cycle that bears the identifier it
    was given: the identifier of the returned cycle is the input written with
    ASCII digits, and it is the input itself when the input is made of ASCII
    digits. *)
Theorem from_identifier_identifier (U : UnicodeData) (s : str) (c : AIRACCycle) :
  unicode_sound U -> from_identifier U s = Ok c ->
  (exists a b a' b' x y x' y',
     s = [a; b; a'; b'] /\
     todecimal U a = Some x /\ todecimal U b = Some y /\
     todecimal U a' = Some x' /\ todecimal U b' = Some y' /\
     identifier c = [48 + x; 48 + y; 48 + x'; 48 + y']) /\
  (Forall (fun ch => 48 <= ch <= 57) s -> identifier c = s).
Proof.
  intros HU H.
  destruct (from_identifier_inv U s c H)
    as (Hlen & _ & yp & k & Hp1 & Hp2 & Hk & Hy & Ho & Hp).
  destruct s as [|a [|b [|a' [|b' [|? ?]]]]]; try discriminate.
  cbn [firstn] in Hp1. cbn [skipn] in Hp2.
  destruct (int_two U HU a b yp Hp1) as (x & y & Ha & Hb & -> & Hx & Hy').
  destruct (int_two U HU a' b' k Hp2) as (x' & y' & Ha' & Hb' & -> & Hx' & Hy'').
  destruct (produced_cycle_at c Hp) as (o & Hor & ->).
  assert (Hid : identifier (cycle_at o) = [48 + x; 48 + y; 48 + x'; 48 + y']).
  { rewrite (identifier_cycle_at o Hor). rewrite Hy, Ho.
    assert (Hc : century (10 * x + y) mod 100 = 10 * x + y).
    { unfold century. destruct (10 * x + y >=? 64); Z.div_mod_to_equations; lia. }
    rewrite Hc.
    replace ((10 * x + y) / 10) with x by (Z.div_mod_to_equations; lia).
    replace ((10 * x + y) mod 10) with y by (Z.div_mod_to_equations; lia).
    replace ((10 * x' + y') / 10) with x' by (Z.div_mod_to_equations; lia).
    replace ((10 * x' + y') mod 10) with y' by (Z.div_mod_to_equations; lia).
    reflexivity. }
  split.
  - exists a, b, a', b', x, y, x', y'. repeat split; assumption.
  - intros Hascii. rewrite Hid.
    destruct HU as (Hdec & _).
    inversion Hascii as [|? ? Hca Hr1]; subst.
    inversion Hr1 as [|? ? Hcb Hr2]; subst.
    inversion Hr2 as [|? ? Hca' Hr3]; subst.
    inversion Hr3 as [|? ? Hcb' _]; subst.
    rewrite (Hdec a Hca) in Ha. rewrite (Hdec b Hcb) in Hb.
    rewrite (Hdec a' Hca') in Ha'. rewrite (Hdec b' Hcb') in Hb'.
    injection Ha as <-. injection Hb as <-. injection Ha' as <-. injection Hb' as <-.
    replace (48 + (a - 48)) with a by lia. replace (48 + (b - 48)) with b by lia.
    replace (48 + (a' - 48)) with a' by lia. replace (48 + (b' - 48)) with b' by lia.
    reflexivity.
Qed.

Lemma from_identifier_identifier_witness :
  let c := {| identifier := pystr "9901"; year := 1999; ordinal := 1;
              effective_date := mkdate 1999 1 28;
              expiration_date := mkdate 1999 2 24 |} in
  from_identifier latin1_data (pystr "9901") = Ok c /\
  identifier c = pystr "9901".
Proof.
  intros c.
  assert (H : from_identifier latin1_data (pystr "9901") = Ok c)
    by (vm_compute; reflexivity).
  split; [exact H|].
  apply (proj2 (from_identifier_identifier latin1_data (pystr "9901") c
                  latin1_data_sound H)).
  repeat constructor; vm_compute; discriminate.
Defined.

(** X8.  [from_identifier] only returns cycles of the years 1964 to 2063,
    with an ordinal from 1 to 14. *)
Theorem from_identifier_window (U : UnicodeData) (s : str) (c : AIRACCycle) :
  unicode_sound U -> from_identifier U s = Ok c ->
  1964 <= year c <= 2063 /\ 1 <= ordinal c <= 14.
Proof.
  intros HU H.
  destruct (from_identifier_inv U s c H)
    as (Hlen & _ & yp & k & Hp1 & _ & Hk & Hy & Ho & _).
  pose proof (int_firstn_range U HU s yp Hlen Hp1) as Hr.
  pose proof (century_range yp Hr). lia.
Qed.

Lemma from_identifier_window_witness :
  let c := {| identifier := pystr "9901"; year := 1999; ordinal := 1;
              effective_date := mkdate 1999 1 28;
              expiration_date := mkdate 1999 2 24 |} in
  1964 <= year c <= 2063 /\ 1 <= ordinal c <= 14.
Proof.
  intros c.
  assert (H : from_identifier latin1_data (pystr "9901") = Ok c)
    by (vm_compute; reflexivity).
  exact (from_identifier_window latin1_data (pystr "9901") c latin1_data_sound H).
Defined.

(** X9.  The identifier tells the cycles of a year apart: two returned cycles
    with the same identifier have the same ordinal and years that differ by a
    multiple of 100, and they are the same cycle when their years are equal,
    and so when both years are within a span of 100 years such as
    1964..2063. *)
Theorem identifier_injective (d1 d2 : date) (c1 c2 : AIRACCycle) :
  valid_date d1 = true -> valid_date d2 = true ->
  from_date d1 = Ok c1 -> from_date d2 = Ok c2 ->
  identifier c1 = identifier c2 ->
  ordinal c1 = ordinal c2 /\ (year c1 - year c2) mod 100 = 0 /\
  (year c1 = year c2 -> c1 = c2) /\
  (1964 <= year c1 <= 2063 -> 1964 <= year c2 <= 2063 -> c1 = c2).
Proof.
  intros Hv1 Hv2 H1 H2 Hid.
  destruct (from_date_ok d1 c1 Hv1 H1) as [Ho1 ->].
  destruct (from_date_ok d2 c2 Hv2 H2) as [Ho2 ->].
  rewrite (identifier_cycle_at _ Ho1), (identifier_cycle_at _ Ho2) in Hid.
  destruct (cycle_at_facts _ Ho1) as (_ & _ & _ & _ & _ & Hy1 & _ & He1 & Hk1).
  destruct (cycle_at_facts _ Ho2) as (_ & _ & _ & _ & _ & Hy2 & _ & He2 & Hk2).
  destruct (identifier_digits_inj
              (year (cycle_at (toordinal d1))) (ordinal (cycle_at (toordinal d1)))
              (year (cycle_at (toordinal d2))) (ordinal (cycle_at (toordinal d2)))
              ltac:(lia) ltac:(lia) Hid) as [Hk Hy].
  assert (Hsame : year (cycle_at (toordinal d1)) = year (cycle_at (toordinal d2)) ->
                  cycle_at (toordinal d1) = cycle_at (toordinal d2)).
  { intros Heq. apply cycle_at_same. rewrite He1, He2.
    now rewrite Heq, Hk. }
  split; [exact Hk|]. split; [exact Hy|]. split; [exact Hsame|].
  intros Hw1 Hw2. apply Hsame. Z.div_mod_to_equations. lia.
Qed.

Lemma identifier_injective_witness :
  let c1 := {| identifier := pystr "5006"; year := 1950; ordinal := 6;
               effective_date := mkdate 1950 5 25;
               expiration_date := mkdate 1950 6 21 |} in
  let c2 := {| identifier := pystr "5006"; year := 2050; ordinal := 6;
               effective_date := mkdate 2050 6 9;
               expiration_date := mkdate 2050 7 6 |} in
  from_date (mkdate 1950 6 1) = Ok c1 /\
  from_date (mkdate 2050 6 9) = Ok c2 /\
  c1 <> c2 /\ identifier c1 = identifier c2 /\
  ordinal c1 = ordinal c2 /\ (year c1 - year c2) mod 100 = 0.
Proof.
  intros c1 c2.
  assert (H1 : from_date (mkdate 1950 6 1) = Ok c1) by (vm_compute; reflexivity).
  assert (H2 : from_date (mkdate 2050 6 9) = Ok c2) by (vm_compute; reflexivity).
  destruct (identifier_injective (mkdate 1950 6 1) (mkdate 2050 6 9) c1 c2
              eq_refl eq_refl H1 H2 eq_refl) as (Ha & Hb & _).
  split; [exact H1|]. split; [exact H2|].
  split; [intros Heq; discriminate (f_equal year Heq)|].
  split; [reflexivity|]. exact (conj Ha Hb).
Defined.

Lemma next_as_shift today d :
  valid_date d = true ->
  FIRST_ORD <= toordinal d <= LAST_ORD ->
  next today (Some (cycle_at (toordinal d))) =
  (d' <- date_add d 28 ;; from_date d').
Proof.
  intros Hv Ho. rewrite next_cycle_at by assumption.
  rewrite date_add_spec by assumption.
  pose proof (cycle_start_bounds (toordinal d)) as [Hb Hm].
  unfold FIRST_ORD, LAST_ORD, MAXORDINAL in *.
  destruct (Z.leb_spec (toordinal d) 3652029) as [Hr|Hr].
  - rewrite between_true by lia. cbn [bind].
    destruct (date_of_ord_spec (toordinal d + 28) ltac:(unfold MAXORDINAL; lia))
      as (Hvn & Hon & _).
    rewrite from_date_in_range by (rewrite ?Hon; unfold FIRST_ORD, LAST_ORD; assumption || lia).
    rewrite Hon. f_equal. apply cycle_at_same.
    replace (toordinal d + 28) with (toordinal d + 28 * 1) by lia.
    rewrite cycle_start_shift.
    replace (cycle_start (toordinal d) + 28) with (cycle_start (toordinal d) + 28 * 1) by lia.
    now rewrite cycle_start_shift, cycle_start_idem.
  - destruct (Z_le_gt_dec (toordinal d + 28) 3652059) as [Hm'|Hm'].
    + rewrite between_true by lia. cbn [bind].
      destruct (date_of_ord_spec (toordinal d + 28) ltac:(unfold MAXORDINAL; lia))
        as (Hvn & Hon & _).
      rewrite from_date_eq by assumption. rewrite Hon.
      unfold FIRST_ORD, LAST_ORD. rewrite between_false by lia. reflexivity.
    + rewrite between_false by lia. reflexivity.
Qed.

Lemma previous_as_shift today d :
  valid_date d = true ->
  FIRST_ORD <= toordinal d <= LAST_ORD ->
  previous today (Some (cycle_at (toordinal d))) =
  (d' <- date_add d (- 28) ;; from_date d').
Proof.
  intros Hv Ho. rewrite previous_cycle_at by assumption.
  rewrite date_add_spec by assumption.
  pose proof (cycle_start_bounds (toordinal d)) as [Hb Hm].
  unfold FIRST_ORD, LAST_ORD, MAXORDINAL in *.
  destruct (Z.leb_spec 46 (toordinal d)) as [Hr|Hr].
  - rewrite between_true by lia. cbn [bind].
    destruct (date_of_ord_spec (toordinal d + - 28) ltac:(unfold MAXORDINAL; lia))
      as (Hvn & Hon & _).
    rewrite from_date_in_range by (rewrite ?Hon; unfold FIRST_ORD, LAST_ORD; assumption || lia).
    rewrite Hon. f_equal. apply cycle_at_same.
    replace (toordinal d + - 28) with (toordinal d + 28 * (- 1)) by lia.
    rewrite cycle_start_shift.
    apply cycle_start_unique; [lia|].
    unfold E in *. Z.div_mod_to_equations. lia.
  - destruct (Z_le_gt_dec 1 (toordinal d + - 28)) as [Hm'|Hm'].
    + rewrite between_true by lia. cbn [bind].
      destruct (date_of_ord_spec (toordinal d + - 28) ltac:(unfold MAXORDINAL; lia))
        as (Hvn & Hon & _).
      rewrite from_date_eq by assumption. rewrite Hon.
      unfold FIRST_ORD, LAST_ORD. rewrite between_false by lia. reflexivity.
    + rewrite between_false by lia. reflexivity.
Qed.

(** X10.  [next] and [previous] commute with shifting the query date by one
    cycle, failures included: for the cycle c of a date d, [next c] is what
    [from_date] gives for d + 28 days and [previous c] what it gives for
    d - 28 days, an [OverflowError] of the shift or of [from_date] being the
    error of [next] or [previous]. *)
Theorem next_previous_shift (today d : date) (c : AIRACCycle) :
  valid_date d = true -> from_date d = Ok c ->
  next today (Some c) = (d' <- date_add d 28 ;; from_date d') /\
  previous today (Some c) = (d' <- date_add d (- 28) ;; from_date d').
Proof.
  intros Hv H. destruct (from_date_ok d c Hv H) as [Ho ->].
  split; [now apply next_as_shift|now apply previous_as_shift].
Qed.

Lemma next_previous_shift_witness :
  let c := {| identifier := pystr "2511"; year := 2025; ordinal := 11;
              effective_date := mkdate 2025 10 30;
              expiration_date := mkdate 2025 11 26 |} in
  next EPOCH (Some c) = from_date (mkdate 2025 12 23) /\
  previous EPOCH (Some c) = from_date (mkdate 2025 10 28).
Proof.
  intros c.
  assert (H : from_date (mkdate 2025 11 25) = Ok c) by (vm_compute; reflexivity).
  exact (next_previous_shift EPOCH (mkdate 2025 11 25) c eq_refl H).
Defined.

(** X11.  [next] and [previous] look at the effective date of their argument
    only, which need not be a cycle of the calculator.  For a cycle value c
    whose effective date lies in the cycle c0: [next c] is [next c0]; and
    [previous c] is c0 itself when the effective date of c is after the start
    of c0, [previous c0] when it is the start of c0. *)
Theorem next_previous_of_any_cycle (today : date) (c c0 : AIRACCycle) :
  valid_date (effective_date c) = true ->
  from_date (effective_date c) = Ok c0 ->
  next today (Some c) = next today (Some c0) /\
  previous today (Some c) =
    (if date_ltb (effective_date c0) (effective_date c) then Ok c0
     else previous today (Some c0)).
Proof.
  intros Hv H. destruct (from_date_ok _ c0 Hv H) as [Ho Hc0].
  set (e := toordinal (effective_date c)) in *.
  destruct (cycle_at_facts e Ho) as (Hve0 & Hoe0 & _).
  pose proof (cycle_start_bounds e) as [Hb Hm].
  pose proof (cycle_start_range e Ho) as [Hlo Hhi].
  split.
  - rewrite Hc0. unfold e. rewrite (next_as_shift today _ Hv Ho). apply next_eq.
  - rewrite date_ltb_ord by (rewrite ?Hc0; assumption).
    rewrite Hc0, Hoe0. fold e.
    destruct (Z_lt_ge_dec (cycle_start e) e) as [Hlt|Hge].
    + rewrite (proj2 (Z.ltb_lt _ _) Hlt). rewrite previous_eq.
      unfold FIRST_ORD, LAST_ORD in *.
      rewrite (date_add_in_range _ _ Hv) by (fold e; unfold MAXORDINAL; lia).
      cbn [bind]. fold e.
      destruct (date_of_ord_spec (e + - (1)) ltac:(unfold MAXORDINAL; lia))
        as (Hvn & Hon & _).
      rewrite from_date_in_range
        by (rewrite ?Hon; unfold FIRST_ORD, LAST_ORD; assumption || lia).
      rewrite Hon. f_equal. apply cycle_at_same.
      apply cycle_start_unique; [lia|exact Hm].
    + assert (Heq : cycle_start e = e) by lia.
      rewrite (proj2 (Z.ltb_ge _ _)) by lia.
      rewrite !previous_eq.
      replace (effective_date (cycle_at e)) with (effective_date c); [reflexivity|].
      unfold cycle_at. cbn [effective_date]. rewrite Heq. unfold e.
      symmetry. now apply date_of_ord_toordinal.
Qed.

Lemma next_previous_of_any_cycle_witness :
  let c0 := {| identifier := pystr "2001"; year := 2020; ordinal := 1;
               effective_date := mkdate 2020 1 2;
               expiration_date := mkdate 2020 1 29 |} in
  let c := {| identifier := pystr "0000"; year := 0; ordinal := 0;
              effective_date := mkdate 2020 1 10;
              expiration_date := mkdate 2020 1 10 |} in
  next EPOCH (Some c) = next EPOCH (Some c0) /\
  previous EPOCH (Some c) = Ok c0.
Proof.
  intros c0 c.
  assert (H : from_date (effective_date c) = Ok c0) by (vm_compute; reflexivity).
  exact (next_previous_of_any_cycle EPOCH c c0 eq_refl H).
Defined.

(** X12.  Called without a cycle, [next] and [previous] work from the cycle
    of today: [next()] returns the cycle that takes effect the day after the
    current cycle expires, so after today; [previous()] returns the cycle
    that expires the day before the current cycle takes effect, so before
    today. *)
Theorem next_previous_default (today : date) :
  valid_date today = true ->
  (forall n, next today None = Ok n ->
     date_ltb today (effective_date n) = true /\
     exists cur, current today = Ok cur /\
       date_add (expiration_date cur) 1 = Ok (effective_date n)) /\
  (forall p, previous today None = Ok p ->
     date_ltb (expiration_date p) today = true /\
     exists cur, current today = Ok cur /\
       date_add (expiration_date p) 1 = Ok (effective_date cur)).
Proof.
  intros Hv. split.
  - intros n Hn.
    assert (Hex : exists cur, current today = Ok cur /\ next today (Some cur) = Ok n).
    { unfold next in Hn. bind_inv Hn cur Hcur. exists cur. split; [exact Hcur|].
      exact Hn. }
    destruct Hex as (cur & Hcur & Hnext).
    destruct (from_date_ok today cur Hv Hcur) as [Ho ->].
    rewrite next_cycle_at in Hnext by assumption.
    destruct (toordinal today <=? 3652029) eqn:Hr; [|discriminate].
    apply Ok_inj in Hnext. subst n. apply Z.leb_le in Hr.
    pose proof (cycle_start_bounds (toordinal today)) as [Hb Hm].
    pose proof (cycle_start_range _ Ho) as [Hlo Hhi].
    assert (Ho' : FIRST_ORD <= cycle_start (toordinal today) + 28 <= LAST_ORD)
      by (unfold FIRST_ORD, LAST_ORD in *; lia).
    destruct (cycle_at_facts _ Ho) as (_ & _ & Hvx & Hox & _).
    destruct (cycle_at_facts _ Ho') as (Hve' & Hoe' & _).
    assert (Hcs : cycle_start (cycle_start (toordinal today) + 28) =
                  cycle_start (toordinal today) + 28).
    { apply cycle_start_unique; [lia|]. unfold E in *. Z.div_mod_to_equations. lia. }
    rewrite Hcs in Hoe'.
    split.
    + rewrite date_ltb_ord by assumption. rewrite Hoe'. apply Z.ltb_lt. lia.
    + exists (cycle_at (toordinal today)). split; [exact Hcur|].
      unfold FIRST_ORD, LAST_ORD in *.
      rewrite (date_add_in_range _ _ Hvx) by (rewrite Hox; unfold MAXORDINAL; lia).
      rewrite Hox. f_equal.
      rewrite <- (date_of_ord_toordinal _ Hve'), Hoe'. f_equal. lia.
  - intros p Hp.
    assert (Hex : exists cur, current today = Ok cur /\ previous today (Some cur) = Ok p).
    { unfold previous in Hp. bind_inv Hp cur Hcur. exists cur. split; [exact Hcur|].
      exact Hp. }
    destruct Hex as (cur & Hcur & Hprev).
    destruct (from_date_ok today cur Hv Hcur) as [Ho ->].
    rewrite previous_cycle_at in Hprev by assumption.
    destruct (46 <=? toordinal today) eqn:Hr; [|discriminate].
    apply Ok_inj in Hprev. subst p. apply Z.leb_le in Hr.
    pose proof (cycle_start_bounds (toordinal today)) as [Hb Hm].
    pose proof (cycle_start_range _ Ho) as [Hlo Hhi].
    assert (He46 : 46 <= cycle_start (toordinal today))
      by (unfold E in *; Z.div_mod_to_equations; lia).
    assert (Ho' : FIRST_ORD <= cycle_start (toordinal today) - 1 <= LAST_ORD)
      by (unfold FIRST_ORD, LAST_ORD in *; lia).
    destruct (cycle_at_facts _ Ho) as (Hve & Hoe & _).
    destruct (cycle_at_facts _ Ho') as (_ & _ & Hvx' & Hox' & _).
    assert (Hcs : cycle_start (cycle_start (toordinal today) - 1) =
                  cycle_start (toordinal today) - 28).
    { apply cycle_start_unique; [lia|]. unfold E in *. Z.div_mod_to_equations. lia. }
    rewrite Hcs in Hox'.
    split.
    + rewrite date_ltb_ord by assumption. rewrite Hox'. apply Z.ltb_lt. lia.
    + exists (cycle_at (toordinal today)). split; [exact Hcur|].
      unfold FIRST_ORD, LAST_ORD in *.
      rewrite (date_add_in_range _ _ Hvx') by (rewrite Hox'; unfold MAXORDINAL; lia).
      rewrite Hox'. f_equal.
      rewrite <- (date_of_ord_toordinal _ Hve), Hoe. f_equal. lia.
Qed.

Lemma next_previous_default_witness :
  let today := mkdate 2025 11 25 in
  let n := {| identifier := pystr "2512"; year := 2025; ordinal := 12;
              effective_date := mkdate 2025 11 27;
              expiration_date := mkdate 2025 12 24 |} in
  let p := {| identifier := pystr "2510"; year := 2025; ordinal := 10;
              effective_date := mkdate 2025 10 2;
              expiration_date := mkdate 2025 10 29 |} in
  next today None = Ok n /\ previous today None = Ok p /\
  (date_ltb today (effective_date n) = true /\
   exists cur, current today = Ok cur /\
     date_add (expiration_date cur) 1 = Ok (effective_date n)) /\
  (date_ltb (expiration_date p) today = true /\
   exists cur, current today = Ok cur /\
     date_add (expiration_date p) 1 = Ok (effective_date cur)).
Proof.
  intros today n p.
  assert (Hn : next today None = Ok n) by (vm_compute; reflexivity).
  assert (Hp : previous today None = Ok p) by (vm_compute; reflexivity).
  destruct (next_previous_default today eq_refl) as [Hnext Hprev].
  split; [exact Hn|]. split; [exact Hp|].
  split; [exact (Hnext n Hn) | exact (Hprev p Hp)].
Defined.

Import Script.

Lemma test_loop_fixed out :
  test_loop test_dates out =
  (out ++
   [pystr "  2020-01-02 -> 2001 (effective: 2020-01-02)";
    pystr "  2020-01-30 -> 2002 (effective: 2020-01-30)";
    pystr "  2020-12-31 -> 2014 (effective: 2020-12-31)";
    pystr "  2025-11-25 -> 2511 (effective: 2025-10-30)"], None).
Proof.
  unfold test_dates. cbn [test_loop].
  replace (from_date (mkdate 2020 1 2)) with
    (Ok {| identifier := pystr "2001"; year := 2020; ordinal := 1;
           effective_date := mkdate 2020 1 2;
           expiration_date := mkdate 2020 1 29 |}) by (vm_compute; reflexivity).
  replace (from_date (mkdate 2020 1 30)) with
    (Ok {| identifier := pystr "2002"; year := 2020; ordinal := 2;
           effective_date := mkdate 2020 1 30;
           expiration_date := mkdate 2020 2 26 |}) by (vm_compute; reflexivity).
  replace (from_date (mkdate 2020 12 31)) with
    (Ok {| identifier := pystr "2014"; year := 2020; ordinal := 14;
           effective_date := mkdate 2020 12 31;
           expiration_date := mkdate 2021 1 27 |}) by (vm_compute; reflexivity).
  replace (from_date (mkdate 2025 11 25)) with
    (Ok {| identifier := pystr "2511"; year := 2025; ordinal := 11;
           effective_date := mkdate 2025 10 30;
           expiration_date := mkdate 2025 11 26 |}) by (vm_compute; reflexivity).
  rewrite <- !app_assoc. reflexivity.
Qed.

Lemma next_default_eq today :
  next today None = (c <- from_date today ;; next today (Some c)).
Proof.
  unfold next, current. destruct (from_date today) as [c|e]; reflexivity.
Qed.

(** X13.  The script run as [__main__] reads the clock twice.  It stops with
    [OverflowError] before printing anything when the first reading is
    outside 0001-01-18..9999-12-29.  Otherwise it prints four lines on the
    cycle of the first reading; it then stops with [OverflowError] when the
    second reading is outside 0001-01-18..9999-12-01, and otherwise prints
    two lines on the next cycle of the second reading, the heading and the
    four test lines, without error.  The test lines are the same on every
    day and show the identifiers the comments of the script expect (2001,
    2002, 2014). *)
Theorem main_output (today1 today2 : date) :
  valid_date today1 = true -> valid_date today2 = true ->
  (in_service today1 = false -> main today1 today2 = ([], Some out_of_range)) /\
  (in_service today1 = true ->
   exists cur,
     from_date today1 = Ok cur /\
     let head :=
       [pystr "Current AIRAC Cycle: " ++ identifier cur;
        pystr "  Year: " ++ str_of_int (year cur) ++ pystr ", Ordinal: " ++
          str_of_int (ordinal cur);
        pystr "  Effective: " ++ isoformat (effective_date cur);
        pystr "  Expires: " ++ isoformat (expiration_date cur)] in
     (date_leb FIRST_DATE today2 && date_leb today2 LAST_WITH_NEXT = false ->
      main today1 today2 = (head, Some out_of_range)) /\
     (date_leb FIRST_DATE today2 && date_leb today2 LAST_WITH_NEXT = true ->
      exists n,
        next today2 None = Ok n /\
        main today1 today2 =
        (head ++
         [10 :: pystr "Next AIRAC Cycle: " ++ identifier n;
          pystr "  Effective: " ++ isoformat (effective_date n);
          10 :: pystr "Test cases:";
          pystr "  2020-01-02 -> 2001 (effective: 2020-01-02)";
          pystr "  2020-01-30 -> 2002 (effective: 2020-01-30)";
          pystr "  2020-12-31 -> 2014 (effective: 2020-12-31)";
          pystr "  2025-11-25 -> 2511 (effective: 2025-10-30)"], None))).
Proof.
  intros Hv1 Hv2. unfold main, current.
  rewrite (from_date_eq today1 Hv1), <- (in_service_ord today1 Hv1).
  split.
  - intros Hs. now rewrite Hs.
  - intros Hs. rewrite Hs.
    exists (cycle_at (toordinal today1)). split; [reflexivity|]. cbv zeta.
    rewrite next_default_eq, (from_date_eq today2 Hv2).
    unfold FIRST_ORD, LAST_ORD. split.
    + intros Hr.
      rewrite !date_leb_ord in Hr by (assumption || reflexivity).
      change (toordinal FIRST_DATE) with 18 in Hr.
      change (toordinal LAST_WITH_NEXT) with 3652029 in Hr.
      destruct (Z_le_gt_dec 18 (toordinal today2)) as [Hlo|Hlo].
      2:{ rewrite between_false by lia. reflexivity. }
      destruct (Z_le_gt_dec (toordinal today2) 3652057) as [Hhi|Hhi].
      2:{ rewrite between_false by lia. reflexivity. }
      rewrite between_true by lia. cbn [bind].
      rewrite next_cycle_at by (unfold FIRST_ORD, LAST_ORD; lia).
      apply andb_false_iff in Hr. rewrite !Z.leb_gt in Hr.
      rewrite (proj2 (Z.leb_gt _ _)) by lia. reflexivity.
    + intros Hr.
      rewrite !date_leb_ord in Hr by (assumption || reflexivity).
      change (toordinal FIRST_DATE) with 18 in Hr.
      change (toordinal LAST_WITH_NEXT) with 3652029 in Hr.
      apply andb_true_iff in Hr. rewrite !Z.leb_le in Hr.
      rewrite between_true by lia. cbn [bind].
      rewrite next_cycle_at by (unfold FIRST_ORD, LAST_ORD; lia).
      rewrite (proj2 (Z.leb_le _ _)) by lia.
      eexists. split; [reflexivity|].
      rewrite test_loop_fixed. rewrite <- !app_assoc. reflexivity.
Qed.

Lemma main_output_witness :
  main (mkdate 1 1 1) (mkdate 2025 11 25) = ([], Some out_of_range) /\
  exists cur, from_date (mkdate 2025 11 25) = Ok cur.
Proof.
  split.
  - exact (proj1 (main_output (mkdate 1 1 1) (mkdate 2025 11 25) eq_refl eq_refl)
             eq_refl).
  - destruct (proj2 (main_output (mkdate 2025 11 25) (mkdate 2025 11 25)
                       eq_refl eq_refl) eq_refl) as (cur & Hcur & _).
    exists cur. exact Hcur.
Defined.
